(** * Extendible cuckoo hash table (tables/xuckoo.c)

    A shallow embedding of the xuckoo table: two extendible-hashing inner
    tables whose slots point at single-key buckets, with cuckoo displacement
    between the two tables and bucket splitting when a displacement chain
    cycles.

    Modelling conventions.
    - C [int] and [int64] values are integers in [Z]; the only arithmetic on
      them is [+ 1], [* 2], shifts and masks, which stay far below the [int]
      range as long as [MAX_TABLE_SIZE] does.
    - Buckets live in a store (the malloc'ed heap cells), addressed by
      allocation index; a slot of an inner table holds such an address, so
      several slots can share one bucket exactly as the pointers do in C.
      A freed cell is [None].
    - A failed [assert] is [Abort]; an access outside an array, or through a
      dangling pointer, is [Fault]; [OutOfFuel] means the recursion budget of
      the model was exhausted (it never stands for a result of the program).
    - [h1], [h2] and [MAX_TABLE_SIZE] come from headers that are not part of
      this file and are parameters.  [malloc] and [realloc] are assumed to
      succeed.  The CPU-time accumulator [stats.time] (fed by [clock()]) is
      instrumentation and is left out of the model. *)

From stdpp Require Import base numbers list.

Local Open Scope Z_scope.

(** ** Results of partial and fallible computations *)

Inductive Result (A : Type) : Type :=
| Ok (a : A)
| Abort
| Fault
| OutOfFuel.

Arguments Ok {A} a.
Arguments Abort {A}.
Arguments Fault {A}.
Arguments OutOfFuel {A}.

Definition bind {A B : Type} (r : Result A) (k : A -> Result B) : Result B :=
  match r with
  | Ok a => k a
  | Abort => Abort
  | Fault => Fault
  | OutOfFuel => OutOfFuel
  end.

Notation "'let*' x ':=' e 'in' k" := (bind e (fun x => k))
  (at level 10, x strict pattern, e at level 100, k at level 200).

(** [for (i = ...; ...; ...) body] over an explicit list of index values. *)
Fixpoint for_each {S : Type} (body : Z -> S -> Result S) (idx : list Z) (s : S)
  : Result S :=
  match idx with
  | [] => Ok s
  | i :: rest => let* s' := body i s in for_each body rest s'
  end.

(** ** Data *)

(** [#define rightmostnbits(n, x) (x) & ((1 << (n)) - 1)] *)
Definition rightmostnbits (n x : Z) : Z := Z.land x (Z.shiftl 1 n - 1).

Abbreviation Ptr := nat (only parsing).

Record Bucket : Type := mkBucket {
  bk_id : Z;       (* first address in the table which points to it *)
  bk_depth : Z;    (* how many hash value bits are used by this bucket *)
  bk_full : bool;  (* does this bucket contain a key *)
  bk_key : Z       (* the key stored in this bucket *)
}.

Record Stats : Type := mkStats {
  st_nbuckets : Z;
  st_nkeys : Z
}.

Record InnerTable : Type := mkInner {
  it_buckets : list Ptr;  (* array of pointers to buckets *)
  it_size : Z;            (* how many entries in the table of pointers *)
  it_depth : Z;           (* how many bits of the hash value to use *)
  it_nkeys : Z            (* how many keys are being stored in the table *)
}.

Abbreviation Store := (list (option Bucket)) (only parsing).

Record XuckooHashTable : Type := mkXuckoo {
  table1 : InnerTable;
  table2 : InnerTable;
  stats : Stats;
  store : Store           (* the buckets allocated so far *)
}.

(** ** Memory accesses *)

Definition read_bucket (m : Store) (p : Ptr) : Result Bucket :=
  match m !! p with
  | Some (Some b) => Ok b
  | _ => Fault
  end.

Definition write_bucket (m : Store) (p : Ptr) (b : Bucket) : Result Store :=
  match m !! p with
  | Some (Some _) => Ok (<[p := Some b]> m)
  | _ => Fault
  end.

Definition free_bucket (m : Store) (p : Ptr) : Result Store :=
  match m !! p with
  | Some (Some _) => Ok (<[p := None]> m)
  | _ => Fault
  end.

Definition get_slot (arr : list Ptr) (a : Z) : Result Ptr :=
  if a <? 0 then Fault
  else match arr !! Z.to_nat a with
       | Some p => Ok p
       | None => Fault
       end.

Definition set_slot (arr : list Ptr) (a : Z) (p : Ptr) : Result (list Ptr) :=
  if (a <? 0) || (Z.of_nat (length arr) <=? a) then Fault
  else Ok (<[Z.to_nat a := p]> arr).

(** The entries [realloc] adds are indeterminate until they are written.
    The model pads with address 0; the value plays no part, since the copy
    loop of [double_table] writes every added entry before anything reads
    it (lemma [copy_down_loop]). *)
Definition realloc (arr : list Ptr) (n : Z) : list Ptr :=
  resize (Z.to_nat n) 0%nat arr.

Definition set_depth (b : Bucket) (d : Z) : Bucket :=
  mkBucket (bk_id b) d (bk_full b) (bk_key b).
Definition set_full (b : Bucket) (f : bool) : Bucket :=
  mkBucket (bk_id b) (bk_depth b) f (bk_key b).
Definition set_key (b : Bucket) (k : Z) : Bucket :=
  mkBucket (bk_id b) (bk_depth b) (bk_full b) k.

Definition set_buckets (t : InnerTable) (arr : list Ptr) : InnerTable :=
  mkInner arr (it_size t) (it_depth t) (it_nkeys t).

(** Stand-ins for the hash functions of the missing header, used in the
    worked scenarios below, and a content for uninitialised key fields. *)
Definition hash_id (k : Z) : Z := k.
Definition hash_succ (k : Z) : Z := k + 1.
Definition hash_plus2 (k : Z) : Z := k + 2.
Definition hash_half (k : Z) : Z := Z.shiftr k 1.
Definition hash_lin1 (k : Z) : Z := (773 * k + 17) mod 2147483647.
Definition hash_lin2 (k : Z) : Z := (1009 * k + 3) mod 2147483647.
Definition hash_odd (k : Z) : Z := 2 * k + 1.
Definition hash_plus3 (k : Z) : Z := k + 3.
Definition zero_keys (_ : nat) : Z := 0.

Section Xuckoo.

(** The two hash functions and the size ceiling of the missing headers, and
    the indeterminate content of the [key] field of a bucket fresh from
    [malloc], as a function of the address of the bucket. *)
Variable h1 h2 : Z -> Z.
Variable MAX_TABLE_SIZE : Z.
Variable uninit_key : nat -> Z.

Definition new_bucket (m : Store) (first_address depth : Z) : Ptr * Store :=
  (length m,
   m ++ [Some (mkBucket first_address depth false (uninit_key (length m)))]).

Definition new_inner_table (m : Store) : InnerTable * Store :=
  let '(p, m') := new_bucket m 0 0 in
  (mkInner [p] 1 0 0, m').

Definition double_table (table : InnerTable) : Result InnerTable :=
  let size := it_size table * 2 in
  if negb (size <? MAX_TABLE_SIZE) then Abort
  else
    let arr := realloc (it_buckets table) size in
    let* arr' :=
      for_each (fun i arr =>
                  let* p := get_slot arr i in
                  set_slot arr (it_size table + i) p)
               (seqZ 0 (it_size table)) arr in
    Ok (mkInner arr' size (it_depth table + 1) (it_nkeys table)).

Definition hash_of (table_no : Z) (key : Z) : Z :=
  if table_no =? 1 then h1 key else h2 key.

Definition reinsert_key (m : Store) (table : InnerTable) (key : Z) (table_no : Z)
  : Result Store :=
  let address := rightmostnbits (it_depth table) (hash_of table_no key) in
  let* p := get_slot (it_buckets table) address in
  let* b := read_bucket m p in
  write_bucket m p (set_full (set_key b key) true).

Definition inner_of (t : XuckooHashTable) (table_no : Z) : InnerTable :=
  if table_no =? 1 then table1 t else table2 t.

Definition with_inner (t : XuckooHashTable) (table_no : Z) (inner : InnerTable)
  (st : Stats) (m : Store) : XuckooHashTable :=
  if table_no =? 1 then mkXuckoo inner (table2 t) st m
  else mkXuckoo (table1 t) inner st m.

Definition split_bucket (t : XuckooHashTable) (address : Z) (table_no : Z)
  : Result XuckooHashTable :=
  let inner_table := inner_of t table_no in
  (* FIRST, do we need to grow the table? *)
  let* p0 := get_slot (it_buckets inner_table) address in
  let* b0 := read_bucket (store t) p0 in
  let* inner_table :=
    (if bk_depth b0 =? it_depth inner_table then double_table inner_table
     else Ok inner_table) in
  (* SECOND, create a new bucket and update both buckets' depth *)
  let* bucket := get_slot (it_buckets inner_table) address in
  let* b := read_bucket (store t) bucket in
  let depth := bk_depth b in
  let first_address := bk_id b in
  let new_depth := depth + 1 in
  let* m := write_bucket (store t) bucket (set_depth b new_depth) in
  let new_first_address := Z.lor (Z.shiftl 1 depth) first_address in
  let '(newbucket, m) := new_bucket m new_first_address new_depth in
  (* THIRD, redirect every second address pointing to this bucket *)
  let bit_address := rightmostnbits depth first_address in
  let suffix := Z.lor (Z.shiftl 1 depth) bit_address in
  let maxprefix := Z.shiftl 1 (it_depth inner_table - new_depth) in
  let* arr :=
    for_each (fun prefix arr =>
                let a := Z.lor (Z.shiftl prefix new_depth) suffix in
                set_slot arr a newbucket)
             (seqZ 0 maxprefix) (it_buckets inner_table) in
  let inner_table := set_buckets inner_table arr in
  (* FINALLY, remove and reinsert the key *)
  let* b := read_bucket m bucket in
  let key := bk_key b in
  let* m := write_bucket m bucket (set_full b false) in
  let* m := reinsert_key m inner_table key table_no in
  Ok (with_inner t table_no inner_table
        (mkStats (st_nbuckets (stats t) + 1) (st_nkeys (stats t))) m).

Definition new_xuckoo_hash_table : XuckooHashTable :=
  let '(t1, m) := new_inner_table [] in
  let '(t2, m) := new_inner_table m in
  mkXuckoo t1 t2 (mkStats 0 0) m.

Definition free_inner (table : InnerTable) (s : Store * list Ptr)
  : Result (Store * list Ptr) :=
  for_each (fun i '(m, freed) =>
              let* p := get_slot (it_buckets table) i in
              let* b := read_bucket m p in
              if bk_id b =? i then
                let* m' := free_bucket m p in Ok (m', freed ++ [p])
              else Ok (m, freed))
           (reverse (seqZ 0 (it_size table))) s.

(** Returns the store after the buckets were released, and the addresses
    passed to [free], in order. *)
Definition free_xuckoo_hash_table (t : XuckooHashTable)
  : Result (Store * list Ptr) :=
  let* s := free_inner (table1 t) (store t, []) in
  free_inner (table2 t) s.

Definition xuckoo_hash_table_lookup (t : XuckooHashTable) (key : Z)
  : Result (bool * XuckooHashTable) :=
  let address := rightmostnbits (it_depth (table1 t)) (h1 key) in
  let address2 := rightmostnbits (it_depth (table2 t)) (h2 key) in
  let* p1 := get_slot (it_buckets (table1 t)) address in
  let* b1 := read_bucket (store t) p1 in
  let found := if bk_full b1 then bk_key b1 =? key else false in
  let* p2 := get_slot (it_buckets (table2 t)) address2 in
  let* b2 := read_bucket (store t) p2 in
  let found := if bk_full b2 && negb found then bk_key b2 =? key else found in
  Ok (found, t).

(** The table selected by a displacement step whose (incremented) counter is
    [loop]: [loop % 2 == 0] selects table 2. *)
Definition active_table (loop : Z) : Z :=
  if Z.rem loop 2 =? 0 then 2 else 1.

(** The cycle test of a displacement step. *)
Definition must_split (t : XuckooHashTable) (address key orig_pos orig_key loop : Z)
  : bool :=
  ((address =? orig_pos) && (key =? orig_key) && (3 <? loop))
  || (it_size (table1 t) + it_size (table2 t) <? loop).

Fixpoint xuckoo_hash_table_insert (fuel : nat) (t : XuckooHashTable) (key : Z)
  {struct fuel} : Result (bool * XuckooHashTable) :=
  match fuel with
  | O => OutOfFuel
  | S fuel =>
    let* (found, t) := xuckoo_hash_table_lookup t key in
    if found then Ok (false, t)
    else if it_nkeys (table1 t) <=? it_nkeys (table2 t) then
      let hash := h1 key in
      let address := rightmostnbits (it_depth (table1 t)) hash in
      let* (_, t') := try_xuck_insert fuel t key address key 0 1 in
      Ok (true, t')
    else
      let hash := h2 key in
      let address := rightmostnbits (it_depth (table2 t)) hash in
      let* (_, t') := try_xuck_insert fuel t key address key 1 2 in
      Ok (true, t')
  end
with try_xuck_insert (fuel : nat) (t : XuckooHashTable) (key : Z) (orig_pos : Z)
  (orig_key : Z) (loop : Z) (orig_table : Z) {struct fuel}
  : Result (bool * XuckooHashTable) :=
  match fuel with
  | O => OutOfFuel
  | S fuel =>
    let loop := loop + 1 in
    let table_no := active_table loop in
    let inner_table := inner_of t table_no in
    let hash := hash_of table_no key in
    let address := rightmostnbits (it_depth inner_table) hash in
    if must_split t address key orig_pos orig_key loop then
      let* t' := split_bucket t address table_no in
      xuckoo_hash_table_insert fuel t' key
    else
      let* p := get_slot (it_buckets inner_table) address in
      let* b := read_bucket (store t) p in
      if bk_full b then
        let rehash_key := bk_key b in
        let* m := write_bucket (store t) p (set_key b key) in
        try_xuck_insert fuel
          (mkXuckoo (table1 t) (table2 t) (stats t) m)
          rehash_key orig_pos orig_key loop orig_table
      else
        let* m := write_bucket (store t) p (set_full (set_key b key) true) in
        let inner_table :=
          mkInner (it_buckets inner_table) (it_size inner_table)
                  (it_depth inner_table) (it_nkeys inner_table + 1) in
        Ok (true,
            with_inner t table_no inner_table
              (mkStats (st_nbuckets (stats t)) (st_nkeys (stats t) + 1)) m)
  end.

(** Inserting a list of keys one after the other; the results of the calls
    are returned in order. *)
Fixpoint insert_all (fuel : nat) (t : XuckooHashTable) (keys : list Z)
  : Result (list bool * XuckooHashTable) :=
  match keys with
  | [] => Ok ([], t)
  | k :: rest =>
    let* (r, t') := xuckoo_hash_table_insert fuel t k in
    let* (rs, t'') := insert_all fuel t' rest in
    Ok (r :: rs, t'')
  end.

(** The table after the keys were inserted (the table itself if a call
    did not return). *)
Definition run_inserts (fuel : nat) (t : XuckooHashTable) (keys : list Z)
  : XuckooHashTable :=
  match insert_all fuel t keys with
  | Ok (_, t') => t'
  | _ => t
  end.

(** ** Well-formedness of the pointer structure *)

(** Every slot of an inner table points at a live bucket whose [bk_depth]
    low-order address bits are its [bk_id], and a bucket is pointed at from
    every slot whose address ends in those bits. *)
Definition wf_inner (m : Store) (T : InnerTable) : Prop :=
  0 <= it_depth T /\
  it_size T = 2 ^ it_depth T /\
  Z.of_nat (length (it_buckets T)) = it_size T /\
  forall a, 0 <= a < it_size T ->
    exists p b,
      it_buckets T !! Z.to_nat a = Some p /\
      m !! p = Some (Some b) /\
      0 <= bk_depth b <= it_depth T /\
      bk_id b = a mod 2 ^ bk_depth b /\
      (forall a', 0 <= a' < it_size T ->
                  a' mod 2 ^ bk_depth b = bk_id b ->
                  it_buckets T !! Z.to_nat a' = Some p).

(** [m'] has the buckets of [T] where [m] has them, with the same [bk_id]
    and [bk_depth] (keys and occupancy may differ). *)
Definition shape_on (T : InnerTable) (m m' : Store) : Prop :=
  forall p b, p ∈ it_buckets T -> m !! p = Some (Some b) ->
    exists b', m' !! p = Some (Some b') /\
               bk_id b' = bk_id b /\ bk_depth b' = bk_depth b.

Definition same_shape (m m' : Store) : Prop :=
  length m' = length m /\
  forall p b, m !! p = Some (Some b) ->
    exists b', m' !! p = Some (Some b') /\
               bk_id b' = bk_id b /\ bk_depth b' = bk_depth b.

(** The two inner tables are well formed over the same store, share no
    bucket, and every allocated bucket is pointed at from one of them. *)
Definition tables_inv (m : Store) (Ta Tb : InnerTable) : Prop :=
  wf_inner m Ta /\ wf_inner m Tb /\
  (forall p, p ∈ it_buckets Ta -> p ∉ it_buckets Tb) /\
  (forall p, (p < length m)%nat -> p ∈ it_buckets Ta \/ p ∈ it_buckets Tb).

(** A table is either the initial one-slot table or was grown below the
    ceiling. *)
Definition size_ok (T : InnerTable) : Prop :=
  it_size T = 1 \/ it_size T < MAX_TABLE_SIZE.

(** The invariant of the whole table. *)
Definition table_inv (t : XuckooHashTable) : Prop :=
  tables_inv (store t) (table1 t) (table2 t) /\
  size_ok (table1 t) /\ size_ok (table2 t).

(** The other table. *)
Definition other_of (t : XuckooHashTable) (table_no : Z) : InnerTable :=
  if table_no =? 1 then table2 t else table1 t.

(** States that the public operations can produce from a fresh table. *)
Inductive reachable : XuckooHashTable -> Prop :=
| reachable_new : reachable new_xuckoo_hash_table
| reachable_insert fuel t key b t' :
    reachable t ->
    xuckoo_hash_table_insert fuel t key = Ok (b, t') ->
    reachable t'
| reachable_lookup t key b t' :
    reachable t ->
    xuckoo_hash_table_lookup t key = Ok (b, t') ->
    reachable t'.

(** A call came to an end without touching memory it does not own: it
    returned, in a well-formed table, or it stopped at the size assertion. *)
Definition halts (r : Result (bool * XuckooHashTable)) : Prop :=
  r = Abort \/ exists b t', r = Ok (b, t') /\ table_inv t'.

(** Buckets that can still be allocated before a table must hit the
    ceiling. *)
Definition room (t : XuckooHashTable) : nat :=
  Z.to_nat (2 * Z.max 1 MAX_TABLE_SIZE) - length (store t).

(** Displacement steps left before the counter passes the slot count. *)
Definition chain_budget (t : XuckooHashTable) (loop : Z) : nat :=
  Z.to_nat (it_size (table1 t) + it_size (table2 t) + 1 - loop).

(** Slot sharing: a bucket of depth [d] in a table of depth [D] is pointed at
    from exactly the [2^(D-d)] slots whose address ends in the [d] bits of
    its [bk_id]. *)
Definition slot_sharing (m : Store) (T : InnerTable) : Prop :=
  forall p, p ∈ it_buckets T ->
    exists b, m !! p = Some (Some b) /\
      bk_depth b <= it_depth T /\
      Z.of_nat (length (filter (fun q => q = p) (it_buckets T)))
        = 2 ^ (it_depth T - bk_depth b) /\
      (forall a, 0 <= a < it_size T ->
         it_buckets T !! Z.to_nat a = Some p <->
         a mod 2 ^ bk_depth b = bk_id b).

(** Does the bucket at [p] hold a key? *)
Definition holds_key (m : Store) (p : Ptr) : bool :=
  match m !! p with
  | Some (Some b) => bk_full b
  | _ => false
  end.

(** The number of occupied buckets an inner table points at. *)
Definition occupied (m : Store) (T : InnerTable) : Z :=
  Z.of_nat (length (filter (fun p => holds_key m p = true)
                           (remove_dups (it_buckets T)))).

(** The key of an occupied bucket of table [table_no] hashes to the bucket:
    the [bk_depth] low-order bits of its hash value are the [bk_id]. *)
Definition placed (table_no : Z) (b : Bucket) : Prop :=
  bk_full b = true ->
  hash_of table_no (bk_key b) mod 2 ^ bk_depth b = bk_id b.

Definition placed_in (m : Store) (T : InnerTable) (table_no : Z) : Prop :=
  forall p b,
    p ∈ it_buckets T -> m !! p = Some (Some b) -> placed table_no b.

Definition keys_placed (t : XuckooHashTable) : Prop :=
  placed_in (store t) (table1 t) 1 /\ placed_in (store t) (table2 t) 2.

(** Does the bucket that table [table_no] addresses for [key] hold it? *)
Definition table_hit (m : Store) (T : InnerTable) (table_no key : Z) : bool :=
  match it_buckets T
          !! Z.to_nat (rightmostnbits (it_depth T) (hash_of table_no key)) with
  | Some p =>
    match m !! p with
    | Some (Some b) => bk_full b && (bk_key b =? key)
    | _ => false
    end
  | None => false
  end.

(** Some occupied bucket of the table stores [key]. *)
Definition stored_in (m : Store) (T : InnerTable) (key : Z) : Prop :=
  exists p b,
    p ∈ it_buckets T /\ m !! p = Some (Some b) /\
    bk_full b = true /\ bk_key b = key.

(** The three counters agree with each other and with the store. *)
Definition counters_ok (t : XuckooHashTable) : Prop :=
  st_nkeys (stats t) = it_nkeys (table1 t) + it_nkeys (table2 t) /\
  0 <= it_nkeys (table1 t) /\ 0 <= it_nkeys (table2 t) /\
  Z.of_nat (length (store t)) = st_nbuckets (stats t) + 2.

(** [t'] has every bucket of [t], under the same [bk_id] and at least as
    deep, and tables at least as deep. *)
Definition grows (t t' : XuckooHashTable) : Prop :=
  it_depth (table1 t) <= it_depth (table1 t') /\
  it_depth (table2 t) <= it_depth (table2 t') /\
  (length (store t) <= length (store t'))%nat /\
  forall p b, store t !! p = Some (Some b) ->
    exists b', store t' !! p = Some (Some b') /\
               bk_id b' = bk_id b /\ bk_depth b <= bk_depth b'.

(** Some occupied bucket of one of the two tables stores [key]. *)
Definition stored (t : XuckooHashTable) (key : Z) : Prop :=
  stored_in (store t) (table1 t) key \/ stored_in (store t) (table2 t) key.

(** * Proofs *)

Section Arith.

Lemma rightmostnbits_mod n x : 0 <= n -> rightmostnbits n x = x mod 2 ^ n.
Proof.
  intros Hn. unfold rightmostnbits. rewrite Z.shiftl_1_l.
  replace (2 ^ n - 1) with (Z.ones n) by (rewrite Z.ones_equiv; lia).
  by apply Z.land_ones.
Qed.

Lemma rightmostnbits_range n x : 0 <= n -> 0 <= rightmostnbits n x < 2 ^ n.
Proof.
  intros Hn. rewrite rightmostnbits_mod by done.
  apply Z.mod_pos_bound. by apply Z.pow_pos_nonneg.
Qed.

Lemma lor_shiftl_add p n s :
  0 <= n -> 0 <= s < 2 ^ n -> Z.lor (Z.shiftl p n) s = p * 2 ^ n + s.
Proof.
  intros Hn Hs. rewrite Z.shiftl_mul_pow2 by done.
  symmetry. apply Z.add_nocarry_lor. apply Z.bits_inj'. intros i Hi.
  rewrite Z.land_spec, Z.bits_0.
  destruct (Z.lt_ge_cases i n) as [Hlt|Hge].
  - by rewrite Z.mul_pow2_bits_low.
  - rewrite <- (Z.mod_small s (2 ^ n)) by done.
    rewrite Z.mod_pow2_bits_high by lia. apply andb_false_r.
Qed.

Lemma mod_pow2_succ a d :
  0 <= d -> a mod 2 ^ (d + 1) = a mod 2 ^ d + 2 ^ d * ((a / 2 ^ d) mod 2).
Proof.
  intros Hd. rewrite Z.pow_add_r, Z.pow_1_r by lia.
  apply Z.rem_mul_r; [|lia]. apply Z.pow_nonzero; lia.
Qed.

Lemma mod_pow2_succ_cases a d :
  0 <= d ->
  a mod 2 ^ (d + 1) = a mod 2 ^ d \/ a mod 2 ^ (d + 1) = a mod 2 ^ d + 2 ^ d.
Proof.
  intros Hd. rewrite mod_pow2_succ by done.
  assert (H2 : 0 <= (a / 2 ^ d) mod 2 < 2) by (apply Z.mod_pos_bound; lia).
  assert (Hc : (a / 2 ^ d) mod 2 = 0 \/ (a / 2 ^ d) mod 2 = 1) by lia.
  destruct Hc as [-> | ->]; [left | right]; lia.
Qed.

Lemma mod_pow2_mod a d e : 0 <= d <= e -> (a mod 2 ^ e) mod 2 ^ d = a mod 2 ^ d.
Proof.
  intros H. apply Z.mod_mod_divide.
  exists (2 ^ (e - d)). rewrite <- Z.pow_add_r by lia. f_equal. lia.
Qed.

Lemma pow2_pos n : 0 <= n -> 0 < 2 ^ n.
Proof. intros. by apply Z.pow_pos_nonneg. Qed.

Lemma pow2_le d e : 0 <= d <= e -> 2 ^ d <= 2 ^ e.
Proof. intros. apply Z.pow_le_mono_r; lia. Qed.

(** The addresses [prefix << (d+1) | suffix] with [prefix < 2^(D-d-1)] are
    the addresses below [2^D] that end in [suffix]. *)
Lemma redirected_addresses D d s a :
  0 <= d < D -> 0 <= s < 2 ^ (d + 1) ->
  (exists k, 0 <= k < 2 ^ (D - (d + 1)) /\ a = k * 2 ^ (d + 1) + s)
  <-> 0 <= a < 2 ^ D /\ a mod 2 ^ (d + 1) = s.
Proof.
  intros Hd Hs.
  assert (Hp : 0 < 2 ^ (d + 1)) by (apply pow2_pos; lia).
  assert (HD : 2 ^ D = 2 ^ (D - (d + 1)) * 2 ^ (d + 1))
    by (rewrite <- Z.pow_add_r by lia; f_equal; lia).
  split.
  - intros (k & Hk & ->). split.
    + rewrite HD. nia.
    + rewrite Z.add_comm, Z.mod_add by lia. apply Z.mod_small. lia.
  - intros [Ha Hm]. exists (a / 2 ^ (d + 1)). split.
    + split; [apply Z.div_pos; lia|].
      apply Z.div_lt_upper_bound; [lia|]. rewrite Z.mul_comm, <- HD. lia.
    + rewrite <- Hm. rewrite (Z.div_mod a (2 ^ (d + 1))) at 1 by lia. lia.
Qed.

End Arith.

Section Memory.

Lemma bind_Ok {A B} (r : Result A) (k : A -> Result B) b :
  bind r k = Ok b -> exists a, r = Ok a /\ k a = Ok b.
Proof. destruct r; simpl; try discriminate. eauto. Qed.

Lemma get_slot_Ok arr a p :
  get_slot arr a = Ok p <-> 0 <= a /\ arr !! Z.to_nat a = Some p.
Proof.
  unfold get_slot. destruct (Z.ltb_spec a 0).
  - split; [discriminate | lia].
  - destruct (arr !! Z.to_nat a) eqn:E; split; try discriminate.
    + intros [= ->]. done.
    + intros [_ [= ->]]. done.
    + intros [_ ?]. discriminate.
Qed.

Lemma read_bucket_Ok (m : list (option Bucket)) p b :
  read_bucket m p = Ok b <-> m !! p = Some (Some b).
Proof.
  unfold read_bucket. destruct (m !! p) as [[b'|]|]; split; try discriminate;
    congruence.
Qed.

Lemma set_slot_Ok arr a p arr' :
  set_slot arr a p = Ok arr' <->
  0 <= a < Z.of_nat (length arr) /\ arr' = <[Z.to_nat a := p]> arr.
Proof.
  unfold set_slot.
  destruct (Z.ltb_spec a 0), (Z.leb_spec (Z.of_nat (length arr)) a); simpl;
    split; try discriminate; try lia.
  - intros [= <-]. split; [lia | done].
  - intros [_ ->]. done.
Qed.

Lemma for_each_app {S} (body : Z -> S -> Result S) l1 l2 s :
  for_each body (l1 ++ l2) s =
  let* s' := for_each body l1 s in for_each body l2 s'.
Proof.
  revert s. induction l1 as [|i l1 IH]; intros s; simpl; [done|].
  destruct (body i s); simpl; auto.
Qed.

(** A loop that stores [q] at the addresses [f k]. *)
Lemma for_each_set_slot (f : Z -> Z) (q : nat) idx (arr : list nat) :
  (forall k, k ∈ idx -> 0 <= f k < Z.of_nat (length arr)) ->
  exists arr',
    for_each (fun k arr => set_slot arr (f k) q) idx arr = Ok arr' /\
    length arr' = length arr /\
    forall a, 0 <= a ->
      arr' !! Z.to_nat a =
      if bool_decide (a ∈ f <$> idx) then
        (if bool_decide (a < Z.of_nat (length arr)) then Some q else None)
      else arr !! Z.to_nat a.
Proof.
  revert arr. induction idx as [|k idx IH]; intros arr Hr.
  - exists arr. split; [done|]. split; [done|]. intros a Ha.
    rewrite bool_decide_eq_false_2; [done|]. apply not_elem_of_nil.
  - cbn [for_each]. assert (Hk : 0 <= f k < Z.of_nat (length arr))
      by (apply Hr, list_elem_of_here).
    destruct (set_slot arr (f k) q) as [arr1| | |] eqn:E.
    2-4: (apply eq_sym in E; unfold set_slot in E;
          destruct (Z.ltb_spec (f k) 0), (Z.leb_spec (Z.of_nat (length arr)) (f k));
          simpl in E; try discriminate; lia).
    apply set_slot_Ok in E as [_ ->]. cbn [bind].
    destruct (IH (<[Z.to_nat (f k):=q]> arr)) as (arr' & Hrun & Hlen & Hpt).
    { intros k' Hk'. rewrite length_insert. apply Hr. by apply list_elem_of_further. }
    exists arr'. split; [done|]. rewrite length_insert in Hlen.
    split; [done|]. intros a Ha. rewrite Hpt by done.
    rewrite length_insert, fmap_cons.
    destruct (decide (a = f k)) as [->|Hne].
    + rewrite (bool_decide_eq_true_2 (f k ∈ f k :: (f <$> idx))) by apply list_elem_of_here.
      rewrite (bool_decide_eq_true_2 (f k < _)) by lia.
      case_bool_decide as Hin; [done|].
      by rewrite list_lookup_insert_eq by lia.
    + rewrite list_lookup_insert_ne by lia.
      case_bool_decide as Hin.
      * rewrite (bool_decide_eq_true_2 (a ∈ _ :: _))
          by (by apply list_elem_of_further). done.
      * rewrite (bool_decide_eq_false_2 (a ∈ _ :: _)); [done|].
        intros Hc. apply elem_of_cons in Hc as [?|?]; done.
Qed.

End Memory.

Section Growth.

Lemma copy_down_loop (l : list nat) (pad : nat) (k : nat) :
  (k <= length l)%nat ->
  for_each (fun i arr =>
              let* p := get_slot arr i in
              set_slot arr (Z.of_nat (length l) + i) p)
           (seqZ 0 (Z.of_nat k)) (l ++ replicate (length l) pad)
  = Ok (l ++ take k l ++ replicate (length l - k) pad).
Proof.
  induction k as [|k IH]; intros Hk.
  - simpl. by rewrite Nat.sub_0_r.
  - rewrite seqZ_S, for_each_app, IH by lia. cbn [bind for_each].
    destruct (lookup_lt_is_Some_2 l k) as [x Hx]; [lia|].
    assert (Hget : get_slot (l ++ take k l ++ replicate (length l - k) pad)
                     (0 + Z.of_nat k) = Ok x).
    { apply get_slot_Ok. split; [lia|].
      replace (Z.to_nat (0 + Z.of_nat k)) with k by lia.
      rewrite lookup_app_l by lia. done. }
    rewrite Hget. cbn [bind].
    assert (Hset : set_slot (l ++ take k l ++ replicate (length l - k) pad)
                     (Z.of_nat (length l) + (0 + Z.of_nat k)) x
                   = Ok (l ++ take (S k) l ++ replicate (length l - S k) pad)).
    { apply set_slot_Ok. split.
      - rewrite !length_app, length_take, length_replicate. lia.
      - replace (Z.to_nat (Z.of_nat (length l) + (0 + Z.of_nat k)))
          with (length l + (length (take k l) + 0))%nat
          by (rewrite length_take; lia).
        rewrite !insert_app_r.
        replace (length l - k)%nat with (S (length l - S k)) by lia.
        rewrite (take_S_r l k x) by done. simpl.
        by rewrite <- app_assoc. }
    rewrite Hset. done.
Qed.

Lemma double_table_spec (T : InnerTable) :
  Z.of_nat (length (it_buckets T)) = it_size T ->
  double_table T =
  if it_size T * 2 <? MAX_TABLE_SIZE then
    Ok (mkInner (it_buckets T ++ it_buckets T) (it_size T * 2)
          (it_depth T + 1) (it_nkeys T))
  else Abort.
Proof.
  intros Hlen. unfold double_table.
  destruct (it_size T * 2 <? MAX_TABLE_SIZE); [|done]. cbn [negb].
  unfold realloc.
  replace (Z.to_nat (it_size T * 2))
    with (length (it_buckets T) + length (it_buckets T))%nat by lia.
  rewrite resize_add_eq by done.
  rewrite <- Hlen, copy_down_loop by lia. cbn [bind].
  rewrite firstn_all, Nat.sub_diag. simpl. by rewrite app_nil_r.
Qed.

Lemma lookup_double (l : list nat) (a : Z) :
  0 <= a < 2 * Z.of_nat (length l) -> 0 < Z.of_nat (length l) ->
  (l ++ l) !! Z.to_nat a = l !! Z.to_nat (a mod Z.of_nat (length l)).
Proof.
  intros Ha Hl. destruct (Z.lt_ge_cases a (Z.of_nat (length l))).
  - rewrite Z.mod_small by lia. apply lookup_app_l. lia.
  - rewrite lookup_app_r by lia. f_equal.
    replace a with ((a - Z.of_nat (length l)) + 1 * Z.of_nat (length l)) at 2
      by lia.
    rewrite Z.mod_add by lia. rewrite Z.mod_small by lia. lia.
Qed.

Lemma wf_inner_double m T :
  wf_inner m T ->
  wf_inner m (mkInner (it_buckets T ++ it_buckets T) (it_size T * 2)
                (it_depth T + 1) (it_nkeys T)).
Proof.
  intros (HD & Hsz & Hlen & Hsl).
  assert (Hpos : 0 < 2 ^ it_depth T) by (by apply pow2_pos).
  unfold wf_inner; simpl. split; [lia|]. split.
  { rewrite Z.pow_add_r, Z.pow_1_r by lia. lia. }
  split. { rewrite length_app. lia. }
  intros a Ha.
  assert (Hm : 0 <= a mod it_size T < it_size T)
    by (apply Z.mod_pos_bound; lia).
  destruct (Hsl _ Hm) as (p & b & Hp & Hb & Hd & Hid & Hcl).
  exists p, b. split.
  { rewrite lookup_double by lia. by rewrite Hlen. }
  split; [done|]. split; [lia|]. split.
  { rewrite Hid, Hsz. by apply mod_pow2_mod. }
  intros a' Ha' Hm'.
  rewrite lookup_double by lia. rewrite Hlen.
  apply Hcl; [apply Z.mod_pos_bound; lia|].
  rewrite Hsz, mod_pow2_mod; done.
Qed.

Lemma wf_inner_shape m m' T :
  wf_inner m T -> shape_on T m m' -> wf_inner m' T.
Proof.
  intros (HD & Hsz & Hlen & Hsl) Hsh.
  split; [done|]. split; [done|]. split; [done|].
  intros a Ha. destruct (Hsl _ Ha) as (p & b & Hp & Hb & Hd & Hid & Hcl).
  destruct (Hsh p b) as (b' & Hb' & Hid' & Hd'); [|done|].
  { by eapply list_elem_of_lookup_2. }
  exists p, b'. rewrite Hid', Hd'. done.
Qed.

Lemma same_shape_on T m m' : same_shape m m' -> shape_on T m m'.
Proof. intros [_ H] p b _. apply H. Qed.

Lemma same_shape_write (m : list (option Bucket)) p b b' :
  m !! p = Some (Some b) ->
  bk_id b' = bk_id b -> bk_depth b' = bk_depth b ->
  same_shape m (<[p := Some b']> m).
Proof.
  intros Hb Hid Hd. split; [by rewrite length_insert|].
  intros p' b0 Hb0. destruct (decide (p = p')) as [<-|Hne].
  - exists b'. rewrite list_lookup_insert_eq by (by eapply lookup_lt_Some).
    split; [done|]. split; congruence.
  - exists b0. by rewrite list_lookup_insert_ne.
Qed.

End Growth.

Section Split.

Lemma elem_of_slots m T p :
  wf_inner m T ->
  p ∈ it_buckets T <->
  exists a, 0 <= a < it_size T /\ it_buckets T !! Z.to_nat a = Some p.
Proof.
  intros (_ & _ & Hlen & _). rewrite list_elem_of_lookup. split.
  - intros [i Hi]. exists (Z.of_nat i).
    apply lookup_lt_Some in Hi as Hlt. rewrite Nat2Z.id. split; [lia|done].
  - intros (a & _ & Ha). eauto.
Qed.

Lemma wf_inner_bucket m T a :
  wf_inner m T -> 0 <= a < it_size T ->
  exists p b, it_buckets T !! Z.to_nat a = Some p /\ m !! p = Some (Some b) /\
              0 <= bk_depth b <= it_depth T /\
              0 <= bk_id b < 2 ^ bk_depth b /\
              bk_id b = a mod 2 ^ bk_depth b.
Proof.
  intros (_ & _ & _ & Hsl) Ha.
  destruct (Hsl _ Ha) as (p & b & Hp & Hb & Hd & Hid & _).
  exists p, b. split_and!; try done; try lia.
  - rewrite Hid. apply Z.mod_pos_bound, pow2_pos. lia.
  - rewrite Hid. apply Z.mod_pos_bound, pow2_pos. lia.
Qed.

Lemma tables_inv_sym m Ta Tb : tables_inv m Ta Tb -> tables_inv m Tb Ta.
Proof.
  intros (Ha & Hb & Hdis & Hcov). unfold tables_inv. split_and!; try done.
  - intros p Hp Hp'. by apply (Hdis p).
  - intros p Hp. destruct (Hcov p Hp); auto.
Qed.

Lemma tables_inv_shape m m' Ta Tb :
  tables_inv m Ta Tb -> same_shape m m' -> tables_inv m' Ta Tb.
Proof.
  intros (Ha & Hb & Hdis & Hcov) Hs. unfold tables_inv. split_and!; try done.
  - eapply wf_inner_shape; [done|]. by apply same_shape_on.
  - eapply wf_inner_shape; [done|]. by apply same_shape_on.
  - intros p Hp. apply Hcov. destruct Hs as [Hl _]. lia.
Qed.

(** The pointer surgery of a split, on a table that has room for it. *)
Lemma tables_inv_split m T To a p b arr' nb :
  tables_inv m T To ->
  0 <= a < it_size T ->
  it_buckets T !! Z.to_nat a = Some p ->
  m !! p = Some (Some b) ->
  bk_depth b < it_depth T ->
  length arr' = length (it_buckets T) ->
  (forall a', 0 <= a' < it_size T ->
     arr' !! Z.to_nat a' =
     if bool_decide (a' mod 2 ^ (bk_depth b + 1) = 2 ^ bk_depth b + bk_id b)
     then Some (length m) else it_buckets T !! Z.to_nat a') ->
  bk_id nb = 2 ^ bk_depth b + bk_id b ->
  bk_depth nb = bk_depth b + 1 ->
  tables_inv (<[p := Some (set_depth b (bk_depth b + 1))]> m ++ [Some nb])
             (set_buckets T arr') To.
Proof.
  intros (HT & HTo & Hdis & Hcov) Ha Hp Hb Hlt Hlen Harr Hnid Hnd.
  pose proof HT as (HD & Hsz & HlenT & Hsl).
  destruct (Hsl _ Ha) as (p0 & b0 & Hp0 & Hb0 & Hd & Hid & Hcl).
  assert (p0 = p) as -> by congruence.
  assert (b0 = b) as -> by congruence. clear Hp0 Hb0.
  set (d := bk_depth b) in *. set (i := bk_id b) in *.
  assert (Hdpos : 0 < 2 ^ d) by (apply pow2_pos; lia).
  assert (Hi : 0 <= i < 2 ^ d) by (rewrite Hid; apply Z.mod_pos_bound; lia).
  assert (Hplt : (p < length m)%nat) by (by eapply lookup_lt_Some).
  set (m2 := <[p := Some (set_depth b (d + 1))]> m ++ [Some nb]).
  assert (Hm2p : m2 !! p = Some (Some (set_depth b (d + 1)))).
  { unfold m2. rewrite lookup_app_l by (rewrite length_insert; lia).
    by apply list_lookup_insert_eq. }
  assert (Hm2q : m2 !! length m = Some (Some nb)).
  { unfold m2. rewrite lookup_app_r by (rewrite length_insert; lia).
    rewrite length_insert, Nat.sub_diag. done. }
  assert (Hm2o : forall p', p' <> p -> (p' < length m)%nat -> m2 !! p' = m !! p').
  { intros p' Hne Hl. unfold m2.
    rewrite lookup_app_l by (rewrite length_insert; lia).
    by apply list_lookup_insert_ne. }
  assert (Hpow : 2 ^ (d + 1) = 2 * 2 ^ d)
    by (rewrite Z.pow_add_r, Z.pow_1_r by lia; lia).
  (* a redirected address used to point at the split bucket *)
  assert (Hred : forall a', 0 <= a' < it_size T ->
            a' mod 2 ^ (d + 1) = 2 ^ d + i ->
            it_buckets T !! Z.to_nat a' = Some p).
  { intros a' Ha' Hm'. apply Hcl; [done|].
    rewrite <- (mod_pow2_mod a' d (d + 1)) by lia. rewrite Hm'.
    replace (2 ^ d + i) with (i + 1 * 2 ^ d) by lia.
    rewrite Z.mod_add by lia. apply Z.mod_small. lia. }
  assert (HwfT : wf_inner m2 (set_buckets T arr')).
  { split; [done|]. split; [done|]. split; [simpl; lia|].
    intros a' Ha'. simpl in Ha'. cbn [set_buckets it_buckets it_size it_depth].
    destruct (Hsl _ Ha') as (p' & b' & Hp' & Hb' & Hd' & Hid' & Hcl').
    rewrite Harr by done. case_bool_decide as Hc.
    - (* redirected to the new bucket *)
      exists (length m), nb. split; [done|]. split; [done|].
      rewrite Hnd, Hnid. split; [lia|]. split; [done|].
      intros a'' Ha'' Hm''. rewrite Harr by done.
      by rewrite bool_decide_eq_true_2.
    - destruct (decide (p' = p)) as [->|Hne].
      + (* still the split bucket, one level deeper *)
        assert (b' = b) as -> by congruence.
        exists p, (set_depth b (d + 1)). split; [done|]. split; [done|].
        cbn [set_depth bk_depth bk_id]. fold i. split; [lia|].
        assert (Hi' : i = a' mod 2 ^ (d + 1)).
        { destruct (mod_pow2_succ_cases a' d) as [E|E]; [lia|..];
            fold d i in Hid'; lia. }
        split; [done|]. intros a'' Ha'' Hm''. rewrite Harr by done.
        rewrite bool_decide_eq_false_2 by lia.
        apply Hcl; [done|].
        rewrite <- (mod_pow2_mod a'' d (d + 1)) by lia. rewrite Hm''.
        apply Z.mod_small. lia.
      + (* another bucket, untouched *)
        exists p', b'. split; [done|].
        rewrite Hm2o by (done || by eapply lookup_lt_Some).
        split; [done|]. split; [done|]. split; [done|].
        intros a'' Ha'' Hm''. rewrite Harr by done.
        rewrite bool_decide_eq_false_2; [by apply Hcl'|].
        intros Hc'. apply Hne.
        specialize (Hred _ Ha'' Hc'). specialize (Hcl' _ Ha'' Hm'').
        congruence. }
  assert (Hin' : forall p', p' ∈ arr' -> p' = length m \/ p' ∈ it_buckets T).
  { intros p' Hin. apply list_elem_of_lookup in Hin as [j Hj].
    apply lookup_lt_Some in Hj as Hjl.
    specialize (Harr (Z.of_nat j)). rewrite Nat2Z.id in Harr.
    rewrite Harr in Hj by lia. case_bool_decide.
    - left. congruence.
    - right. by eapply list_elem_of_lookup_2. }
  assert (HTo_lt : forall p', p' ∈ it_buckets To -> (p' < length m)%nat).
  { intros p' Hin. apply (elem_of_slots m To p' HTo) in Hin as (a' & Ha' & Hp').
    destruct HTo as (_ & _ & _ & HslTo).
    destruct (HslTo _ Ha') as (p1 & b1 & Hp1 & Hb1 & _).
    assert (p1 = p') as -> by congruence. by eapply lookup_lt_Some. }
  assert (HpT : p ∈ it_buckets T) by (by eapply list_elem_of_lookup_2).
  unfold tables_inv. split_and!.
  - exact HwfT.
  - eapply wf_inner_shape; [exact HTo|]. intros p' b' Hin Hb'.
    exists b'. rewrite Hm2o; [done| |by apply HTo_lt].
    intros ->. by apply (Hdis p).
  - intros p' Hin HinTo. cbn [set_buckets it_buckets] in Hin.
    destruct (Hin' _ Hin) as [->|HinT].
    + apply HTo_lt in HinTo. lia.
    + by apply (Hdis p').
  - intros p' Hp'. cbn [set_buckets it_buckets].
    unfold m2 in Hp'. rewrite length_app, length_insert in Hp'. simpl in Hp'.
    destruct (decide (p' = length m)) as [->|Hne].
    { left. apply list_elem_of_lookup. exists (Z.to_nat (2 ^ d + i)).
      rewrite Harr.
      - rewrite bool_decide_eq_true_2; [done|].
        apply Z.mod_small. lia.
      - rewrite Hsz. split; [lia|].
        assert (2 ^ (d + 1) <= 2 ^ it_depth T) by (apply pow2_le; lia). lia. }
    destruct (Hcov p') as [HinT|HinTo]; [lia| |by right].
    left. destruct (decide (p' = p)) as [->|Hnp].
    + apply list_elem_of_lookup. exists (Z.to_nat i).
      assert (Hir : 0 <= i < it_size T).
      { rewrite Hsz. assert (2 ^ d <= 2 ^ it_depth T) by (apply pow2_le; lia).
        lia. }
      rewrite Harr by done.
      rewrite bool_decide_eq_false_2.
      * apply Hcl; [done|]. apply Z.mod_small. lia.
      * rewrite Z.mod_small by lia. lia.
    + apply (elem_of_slots m T p' HT) in HinT as (a' & Ha' & Hpa').
      apply list_elem_of_lookup. exists (Z.to_nat a').
      rewrite Harr by done. rewrite bool_decide_eq_false_2; [done|].
      intros Hc. specialize (Hred _ Ha' Hc). congruence.
Qed.

End Split.

Section SplitCode.

Lemma tables_inv_double m T To :
  tables_inv m T To ->
  tables_inv m (mkInner (it_buckets T ++ it_buckets T) (it_size T * 2)
                  (it_depth T + 1) (it_nkeys T)) To.
Proof.
  intros (HT & HTo & Hdis & Hcov). unfold tables_inv. split_and!.
  - by apply wf_inner_double.
  - done.
  - simpl. intros p Hp. apply Hdis. apply elem_of_app in Hp. tauto.
  - simpl. intros p Hp. destruct (Hcov p Hp); [left|by right].
    apply elem_of_app. by left.
Qed.

Lemma write_bucket_shape (m : list (option Bucket)) p b b' :
  m !! p = Some (Some b) ->
  bk_id b' = bk_id b -> bk_depth b' = bk_depth b ->
  write_bucket m p b' = Ok (<[p := Some b']> m) /\
  same_shape m (<[p := Some b']> m).
Proof.
  intros Hb Hid Hd. split.
  - unfold write_bucket. by rewrite Hb.
  - by eapply same_shape_write.
Qed.

Lemma wf_inner_address m T x :
  wf_inner m T -> 0 <= rightmostnbits (it_depth T) x < it_size T.
Proof.
  intros (HD & Hsz & _). rewrite Hsz. by apply rightmostnbits_range.
Qed.

Lemma wf_inner_access m T a :
  wf_inner m T -> 0 <= a < it_size T ->
  exists p b, get_slot (it_buckets T) a = Ok p /\ read_bucket m p = Ok b /\
              m !! p = Some (Some b).
Proof.
  intros HT Ha. destruct (wf_inner_bucket m T a HT Ha) as (p & b & Hp & Hb & _).
  exists p, b. split_and!; [|by apply read_bucket_Ok|done].
  apply get_slot_Ok. split; [lia|done].
Qed.

Lemma reinsert_key_ok m T key table_no :
  wf_inner m T ->
  exists m', reinsert_key m T key table_no = Ok m' /\ same_shape m m'.
Proof.
  intros HT. unfold reinsert_key.
  destruct (wf_inner_access m T _ HT
              (wf_inner_address m T (hash_of table_no key) HT))
    as (p & b & Hg & Hr & Hb).
  rewrite Hg. cbn [bind]. rewrite Hr. cbn [bind].
  destruct (write_bucket_shape m p b (set_full (set_key b key) true))
    as [-> Hs]; try done.
  eauto.
Qed.

Lemma redirect_member D d i a :
  0 <= d < D -> 0 <= i < 2 ^ d -> 0 <= a < 2 ^ D ->
  a ∈ (fun prefix =>
         Z.lor (Z.shiftl prefix (d + 1))
               (Z.lor (Z.shiftl 1 d) (rightmostnbits d i)))
      <$> seqZ 0 (Z.shiftl 1 (D - (d + 1)))
  <-> a mod 2 ^ (d + 1) = 2 ^ d + i.
Proof.
  intros Hd Hi Ha.
  assert (Hs : Z.lor (Z.shiftl 1 d) (rightmostnbits d i) = 2 ^ d + i).
  { rewrite rightmostnbits_mod, Z.mod_small by lia.
    rewrite lor_shiftl_add by lia. lia. }
  rewrite Hs, Z.shiftl_1_l.
  assert (Hpow : 2 ^ (d + 1) = 2 * 2 ^ d)
    by (rewrite Z.pow_add_r, Z.pow_1_r by lia; lia).
  assert (Hsr : 0 <= 2 ^ d + i < 2 ^ (d + 1)) by lia.
  rewrite list_elem_of_fmap. split.
  - intros (k & -> & Hk). apply elem_of_seqZ in Hk.
    rewrite lor_shiftl_add by lia.
    apply (redirected_addresses D d (2 ^ d + i)); [done..|].
    exists k. split; [lia|done].
  - intros Hm.
    destruct (proj2 (redirected_addresses D d (2 ^ d + i) a Hd Hsr))
      as (k & Hk & ->); [done|].
    exists k. split.
    + by rewrite lor_shiftl_add by lia.
    + apply elem_of_seqZ. lia.
Qed.

Lemma redirect_in_range D d i k :
  0 <= d < D -> 0 <= i < 2 ^ d ->
  k ∈ seqZ 0 (Z.shiftl 1 (D - (d + 1))) ->
  0 <= Z.lor (Z.shiftl k (d + 1))
             (Z.lor (Z.shiftl 1 d) (rightmostnbits d i)) < 2 ^ D.
Proof.
  intros Hd Hi Hk. apply elem_of_seqZ in Hk. rewrite Z.shiftl_1_l in Hk.
  assert (Hs : Z.lor (Z.shiftl 1 d) (rightmostnbits d i) = 2 ^ d + i).
  { rewrite rightmostnbits_mod, Z.mod_small by lia.
    rewrite lor_shiftl_add by lia. lia. }
  assert (Hpow : 2 ^ (d + 1) = 2 * 2 ^ d)
    by (rewrite Z.pow_add_r, Z.pow_1_r by lia; lia).
  rewrite Hs, lor_shiftl_add by lia.
  apply (redirected_addresses D d (2 ^ d + i)); [done|lia|].
  exists k. split; [lia|done].
Qed.

End SplitCode.

Section SplitBucket.

Lemma inner_other_inv t no :
  table_inv t ->
  tables_inv (store t) (inner_of t no) (other_of t no) /\
  size_ok (inner_of t no) /\ size_ok (other_of t no).
Proof.
  intros (H & H1 & H2). unfold inner_of, other_of.
  destruct (no =? 1); [done|]. split; [by apply tables_inv_sym|done].
Qed.

Lemma with_inner_inv t no T' st m' :
  tables_inv m' T' (other_of t no) -> size_ok T' -> size_ok (other_of t no) ->
  table_inv (with_inner t no T' st m').
Proof.
  unfold with_inner, other_of, table_inv. destruct (no =? 1); simpl.
  - done.
  - intros H ? ?. split; [by apply tables_inv_sym|done].
Qed.

Lemma split_bucket_ok t a no :
  table_inv t -> 0 <= a < it_size (inner_of t no) ->
  split_bucket t a no = Abort \/
  exists T' m',
    split_bucket t a no =
      Ok (with_inner t no T'
            (mkStats (st_nbuckets (stats t) + 1) (st_nkeys (stats t))) m') /\
    tables_inv m' T' (other_of t no) /\ size_ok T' /\
    length m' = S (length (store t)) /\
    it_nkeys T' = it_nkeys (inner_of t no).
Proof.
  intros Hinv Ha.
  destruct (inner_other_inv t no Hinv) as (HTT & HsT & HsTo).
  unfold split_bucket.
  remember (inner_of t no) as T eqn:ET.
  remember (other_of t no) as To eqn:ETo.
  remember (store t) as m eqn:Em.
  pose proof HTT as (HT & HTo & Hdis & Hcov).
  destruct (wf_inner_bucket m T a HT Ha) as (p & b & Hp & Hb & Hd & Hi & Hid).
  assert (Hg : get_slot (it_buckets T) a = Ok p)
    by (apply get_slot_Ok; split; [lia|done]).
  rewrite Hg. cbn [bind]. rewrite (proj2 (read_bucket_Ok m p b) Hb). cbn [bind].
  assert (Hgrow :
    (if bk_depth b =? it_depth T then double_table T else Ok T) = Abort \/
    exists T1,
      (if bk_depth b =? it_depth T then double_table T else Ok T) = Ok T1 /\
      tables_inv m T1 To /\ size_ok T1 /\ bk_depth b < it_depth T1 /\
      0 <= a < it_size T1 /\ it_buckets T1 !! Z.to_nat a = Some p /\
      it_nkeys T1 = it_nkeys T).
  { destruct (Z.eqb_spec (bk_depth b) (it_depth T)) as [E|E].
    - rewrite double_table_spec by apply HT.
      destruct (Z.ltb_spec (it_size T * 2) MAX_TABLE_SIZE); [right|by left].
      eexists. split; [done|]. split; [by apply tables_inv_double|].
      unfold size_ok. cbn [it_size it_depth it_buckets it_nkeys].
      split; [right; lia|]. split; [lia|]. split; [lia|].
      split; [|done].
      rewrite lookup_app_l; [done|]. destruct HT as (_ & _ & Hl & _). lia.
    - right. exists T. split_and!; try done; lia. }
  destruct Hgrow as [-> | (T1 & -> & HTT1 & HsT1 & Hlt & Ha1 & Hp1 & Hnk)];
    [by left|].
  right. cbn [bind].
  pose proof HTT1 as (HT1 & _).
  pose proof HT1 as (HD1 & Hsz1 & Hlen1 & _).
  assert (Hg1 : get_slot (it_buckets T1) a = Ok p)
    by (apply get_slot_Ok; split; [lia|done]).
  rewrite Hg1. cbn [bind]. rewrite (proj2 (read_bucket_Ok m p b) Hb). cbn [bind].
  unfold write_bucket at 1. rewrite Hb. cbn [bind]. unfold new_bucket.
  cbv beta iota zeta.
  set (d := bk_depth b) in *. set (i := bk_id b) in *.
  set (m1 := <[p := Some (set_depth b (d + 1))]> m).
  assert (Hm1 : length m1 = length m) by apply length_insert.
  set (nb := mkBucket (Z.lor (Z.shiftl 1 d) i) (d + 1) false
               (uninit_key (length m1))).
  match goal with
  | |- context [bind (for_each ?F ?I ?A) _] =>
    assert (Hloop : exists arr',
      for_each F I A = Ok arr' /\ length arr' = length (it_buckets T1) /\
      forall a', 0 <= a' < it_size T1 ->
        arr' !! Z.to_nat a' =
        if bool_decide (a' mod 2 ^ (d + 1) = 2 ^ d + i)
        then Some (length m) else it_buckets T1 !! Z.to_nat a')
  end.
  { destruct (for_each_set_slot
                (fun prefix =>
                   Z.lor (Z.shiftl prefix (d + 1))
                         (Z.lor (Z.shiftl 1 d) (rightmostnbits d i)))
                (length m1) (seqZ 0 (Z.shiftl 1 (it_depth T1 - (d + 1))))
                (it_buckets T1)) as (arr' & Hrun & Hl & Hpt).
    { intros k Hk. rewrite Hlen1, Hsz1.
      apply redirect_in_range; [lia|done|done]. }
    exists arr'. split; [exact Hrun|]. split; [done|].
    intros a' Ha'. rewrite Hpt by lia.
    rewrite (bool_decide_ext _ (a' mod 2 ^ (d + 1) = 2 ^ d + i)).
    2:{ apply redirect_member; [lia|done|lia]. }
    case_bool_decide; [|done].
    rewrite bool_decide_eq_true_2 by lia. by rewrite Hm1. }
  destruct Hloop as (arr' & -> & Hl' & Hpt). cbn [bind].
  assert (Hnid : bk_id nb = 2 ^ d + i).
  { simpl. rewrite lor_shiftl_add by lia. lia. }
  pose proof (tables_inv_split m T1 To a p b arr' nb HTT1 Ha1 Hp1 Hb Hlt Hl' Hpt
                Hnid eq_refl) as HTT2.
  fold d m1 in HTT2.
  set (m2 := m1 ++ [Some nb]) in *.
  assert (Hm2p : m2 !! p = Some (Some (set_depth b (d + 1)))).
  { unfold m2. apply lookup_lt_Some in Hb as Hpl.
    rewrite lookup_app_l by lia. unfold m1.
    by apply list_lookup_insert_eq. }
  rewrite (proj2 (read_bucket_Ok m2 p _) Hm2p). cbn [bind].
  destruct (write_bucket_shape m2 p (set_depth b (d + 1))
              (set_full (set_depth b (d + 1)) false)) as [-> Hs3]; try done.
  cbn [bind].
  set (m3 := <[p := _]> m2) in *.
  assert (HTT3 : tables_inv m3 (set_buckets T1 arr') To)
    by (by eapply tables_inv_shape).
  destruct (reinsert_key_ok m3 (set_buckets T1 arr')
              (bk_key (set_depth b (d + 1))) no (proj1 HTT3))
    as (m4 & -> & Hs4).
  cbn [bind]. exists (set_buckets T1 arr'), m4.
  split; [done|]. split; [by eapply tables_inv_shape|].
  split; [done|]. split; [|done].
  destruct Hs4 as [-> _]. destruct Hs3 as [L3 _]. unfold m3 in *.
  rewrite L3. unfold m2. rewrite length_app, Hm1. simpl. lia.
Qed.

End SplitBucket.

Section Insert.

Lemma table_inv_new : table_inv new_xuckoo_hash_table.
Proof.
  assert (Hwf : forall (m : list (option Bucket)) p b n,
            m !! p = Some (Some b) -> bk_depth b = 0 -> bk_id b = 0 ->
            wf_inner m (mkInner [p] 1 0 n)).
  { intros m p b n Hb Hd Hi. split; [done|]. split; [done|]. split; [done|].
    simpl. intros a Ha. assert (a = 0) as -> by lia.
    exists p, b. rewrite Hd, Hi. split_and!; try done.
    intros a' Ha' _. by assert (a' = 0) as -> by lia. }
  split; [|split; by left].
  unfold tables_inv. cbn. split_and!.
  - by eapply Hwf.
  - by eapply Hwf.
  - intros p Hp Hp'. apply list_elem_of_singleton in Hp, Hp'. congruence.
  - intros p Hp. destruct p as [|[|p]]; [left|right|lia];
      by apply list_elem_of_singleton.
Qed.

Lemma lookup_ok t key :
  table_inv t -> exists b, xuckoo_hash_table_lookup t key = Ok (b, t).
Proof.
  intros ((H1 & H2 & _) & _). unfold xuckoo_hash_table_lookup.
  destruct (wf_inner_access _ _ _ H1 (wf_inner_address _ _ (h1 key) H1))
    as (p1 & b1 & Hg1 & Hr1 & _).
  destruct (wf_inner_access _ _ _ H2 (wf_inner_address _ _ (h2 key) H2))
    as (p2 & b2 & Hg2 & Hr2 & _).
  rewrite Hg1. cbn [bind]. rewrite Hr1. cbn [bind].
  rewrite Hg2. cbn [bind]. rewrite Hr2. cbn [bind]. eauto.
Qed.

Lemma lookup_same t key b t' :
  xuckoo_hash_table_lookup t key = Ok (b, t') -> t' = t.
Proof.
  unfold xuckoo_hash_table_lookup. intros H.
  repeat (apply bind_Ok in H as (? & _ & H)). congruence.
Qed.

Lemma inner_of_address t no x :
  table_inv t ->
  0 <= rightmostnbits (it_depth (inner_of t no)) x < it_size (inner_of t no).
Proof.
  intros Hinv. destruct (inner_other_inv t no Hinv) as ((HT & _) & _).
  by eapply wf_inner_address.
Qed.

Lemma table_inv_store t m' :
  table_inv t -> same_shape (store t) m' ->
  table_inv (mkXuckoo (table1 t) (table2 t) (stats t) m').
Proof.
  intros (H & ? & ?) Hs. split; [|done]. simpl. by eapply tables_inv_shape.
Qed.

Lemma split_bucket_inv t a no t' :
  table_inv t -> split_bucket t a no = Ok t' ->
  table_inv t' /\ length (store t') = S (length (store t)).
Proof.
  intros Hinv Hsp.
  assert (Ha : 0 <= a < it_size (inner_of t no)).
  { unfold split_bucket in Hsp. apply bind_Ok in Hsp as (p & Hg & _).
    apply get_slot_Ok in Hg as [? Hp]. apply lookup_lt_Some in Hp.
    destruct (inner_other_inv t no Hinv) as (((_ & _ & Hl & _) & _) & _).
    lia. }
  destruct (split_bucket_ok t a no Hinv Ha)
    as [E | (T' & m' & E & HTT' & Hs' & Hlen & _)]; [congruence|].
  rewrite E in Hsp. injection Hsp as <-. split.
  - apply with_inner_inv; [done..|].
    by destruct (inner_other_inv t no Hinv) as (_ & _ & ?).
  - unfold with_inner. by destruct (no =? 1).
Qed.

(** One displacement step: split and restart, swap and continue, or place. *)
Lemma try_step t key orig_pos orig_key loop orig_table :
  table_inv t ->
  let no := active_table (loop + 1) in
  let address := rightmostnbits (it_depth (inner_of t no)) (hash_of no key) in
  (must_split t address key orig_pos orig_key (loop + 1) = true /\
   forall fuel,
     try_xuck_insert (S fuel) t key orig_pos orig_key loop orig_table =
     (let* t' := split_bucket t address no in
      xuckoo_hash_table_insert fuel t' key))
  \/
  (must_split t address key orig_pos orig_key (loop + 1) = false /\
   exists rehash_key m',
     same_shape (store t) m' /\
     forall fuel,
       try_xuck_insert (S fuel) t key orig_pos orig_key loop orig_table =
       try_xuck_insert fuel (mkXuckoo (table1 t) (table2 t) (stats t) m')
         rehash_key orig_pos orig_key (loop + 1) orig_table)
  \/
  (must_split t address key orig_pos orig_key (loop + 1) = false /\
   exists t',
     (forall fuel,
        try_xuck_insert (S fuel) t key orig_pos orig_key loop orig_table =
        Ok (true, t')) /\
     table_inv t' /\
     st_nkeys (stats t') = st_nkeys (stats t) + 1).
Proof.
  intros Hinv no address.
  destruct (must_split t address key orig_pos orig_key (loop + 1)) eqn:Hms.
  { left. split; [done|]. intros fuel. cbn [try_xuck_insert].
    fold no. fold address. by rewrite Hms. }
  right.
  destruct (inner_other_inv t no Hinv) as (HTT & HsT & HsTo).
  pose proof HTT as (HT & _).
  destruct (wf_inner_access _ _ address HT (wf_inner_address _ _ _ HT))
    as (p & b & Hg & Hr & Hb).
  destruct (bk_full b) eqn:Hfull.
  - left. split; [done|].
    destruct (write_bucket_shape (store t) p b (set_key b key)) as [Hw Hs];
      try done.
    eexists _, _. split; [exact Hs|]. intros fuel. cbn [try_xuck_insert].
    fold no. fold address. rewrite Hms, Hg. cbn [bind]. rewrite Hr. cbn [bind].
    rewrite Hfull, Hw. done.
  - right. split; [done|].
    destruct (write_bucket_shape (store t) p b (set_full (set_key b key) true))
      as [Hw Hs]; try done.
    eexists. split; [|split].
    + intros fuel. cbn [try_xuck_insert].
      fold no. fold address. rewrite Hms, Hg. cbn [bind]. rewrite Hr.
      cbn [bind]. rewrite Hfull, Hw. cbn [bind]. done.
    + apply with_inner_inv; [|done..].
      eapply tables_inv_shape; [|exact Hs].
      destruct HTT as (? & ? & ? & ?). done.
    + unfold with_inner. by destruct (no =? 1).
Qed.

Lemma insert_unfold t key :
  table_inv t ->
  (forall fuel, xuckoo_hash_table_insert (S fuel) t key = Ok (false, t)) \/
  exists orig_pos loop orig_table,
    (forall fuel,
       xuckoo_hash_table_insert (S fuel) t key =
       (let* (_, t') :=
          try_xuck_insert fuel t key orig_pos key loop orig_table in
        Ok (true, t'))) /\ 0 <= loop.
Proof.
  intros Hinv.
  destruct (lookup_ok t key Hinv) as (found & Hl).
  destruct found.
  { left. intros fuel. cbn [xuckoo_hash_table_insert]. by rewrite Hl. }
  right.
  destruct (it_nkeys (table1 t) <=? it_nkeys (table2 t)) eqn:Hle.
  - eexists _, 0, 1. split; [|lia]. intros fuel.
    cbn [xuckoo_hash_table_insert]. rewrite Hl. cbn [bind]. by rewrite Hle.
  - eexists _, 1, 2. split; [|lia]. intros fuel.
    cbn [xuckoo_hash_table_insert]. rewrite Hl. cbn [bind]. by rewrite Hle.
Qed.

(** The invariant holds after every returning call. *)
Lemma run_inv fuel :
  (forall t key b t',
     table_inv t -> xuckoo_hash_table_insert fuel t key = Ok (b, t') ->
     table_inv t') /\
  (forall t key orig_pos orig_key loop orig_table b t',
     table_inv t ->
     try_xuck_insert fuel t key orig_pos orig_key loop orig_table = Ok (b, t') ->
     table_inv t').
Proof.
  induction fuel as [|fuel [IHi IHt]]; [split; intros; discriminate|].
  split.
  - intros t key b t' Hinv Hrun.
    destruct (insert_unfold t key Hinv)
      as [E | (op & loop & ot & E & _)]; rewrite E in Hrun.
    + congruence.
    + apply bind_Ok in Hrun as ([b1 t1] & Hrun & Hret).
      injection Hret as <- <-. by eapply IHt.
  - intros t key op ok loop ot b t' Hinv Hrun.
    destruct (try_step t key op ok loop ot Hinv)
      as [(_ & E) | [(_ & rk & m' & Hs & E) | (_ & t1 & E & Ht1 & _)]];
      rewrite E in Hrun.
    + apply bind_Ok in Hrun as (t1 & Hsp & Hrun).
      eapply IHi; [|exact Hrun].
      by apply (split_bucket_inv _ _ _ _ Hinv Hsp).
    + eapply IHt; [|exact Hrun]. by apply table_inv_store.
    + congruence.
Qed.

Lemma reachable_inv t : reachable t -> table_inv t.
Proof.
  induction 1 as [|fuel t key b t' _ IH Hrun|t key b t' _ IH Hrun].
  - apply table_inv_new.
  - by eapply (proj1 (run_inv fuel)).
  - by rewrite (lookup_same _ _ _ _ Hrun).
Qed.

End Insert.

Section Termination.

Lemma store_bound t :
  table_inv t ->
  Z.of_nat (length (store t)) <= it_size (table1 t) + it_size (table2 t) /\
  it_size (table1 t) + it_size (table2 t) <= 2 * Z.max 1 MAX_TABLE_SIZE.
Proof.
  intros ((H1 & H2 & _ & Hcov) & Hs1 & Hs2). split.
  - destruct H1 as (_ & _ & <- & _), H2 as (_ & _ & <- & _).
    assert (Hsub : seq 0 (length (store t))
                   ⊆+ it_buckets (table1 t) ++ it_buckets (table2 t)).
    { apply NoDup_submseteq; [apply NoDup_seq|].
      intros p Hp. apply elem_of_seq in Hp. apply elem_of_app, Hcov. lia. }
    apply submseteq_length in Hsub.
    rewrite length_seq, length_app in Hsub. lia.
  - unfold size_ok in *. lia.
Qed.

Lemma must_split_budget t address key orig_pos orig_key loop :
  must_split t address key orig_pos orig_key (loop + 1) = false ->
  (chain_budget t (loop + 1) < chain_budget t loop)%nat.
Proof.
  unfold must_split, chain_budget. intros H.
  apply orb_false_iff in H as [_ H]. apply Z.ltb_ge in H. lia.
Qed.

Lemma try_halts n :
  (forall t, table_inv t -> (room t < n)%nat ->
             forall key, exists fuel, halts (xuckoo_hash_table_insert fuel t key)) ->
  forall k t key orig_pos orig_key loop orig_table,
    table_inv t -> (room t <= n)%nat -> (chain_budget t loop <= k)%nat ->
    exists fuel,
      halts (try_xuck_insert fuel t key orig_pos orig_key loop orig_table).
Proof.
  intros IHn. induction k as [|k IHk];
    intros t key op ok loop ot Hinv Hroom Hk.
  all: destruct (try_step t key op ok loop ot Hinv)
      as [(_ & E) | [(Hms & rk & m' & Hs & E) | (_ & t1 & E & Ht1 & _)]].
  all: try (exists 1%nat; rewrite E; right; by eauto).
  all: try (apply must_split_budget in Hms as Hlt).
  all: try lia.
  1,2: set (no := active_table (loop + 1)) in *;
    destruct (split_bucket_ok t _ no Hinv (inner_of_address t no (hash_of no key) Hinv))
      as [Ha | (T' & m' & Hsp & _)];
    [exists 1%nat; rewrite E, Ha; by left|];
    destruct (split_bucket_inv _ _ _ _ Hinv Hsp) as [Hinv' Hlen];
    pose proof (store_bound _ Hinv') as [Hb1 Hb2];
    destruct (IHn _ Hinv') with (key := key) as [fuel Hh];
    [unfold room in *; lia|];
    exists (S fuel); rewrite E, Hsp; exact Hh.
  destruct (IHk (mkXuckoo (table1 t) (table2 t) (stats t) m') rk op ok
              (loop + 1) ot) as [fuel Hh].
  - by apply table_inv_store.
  - unfold room in *. simpl. destruct Hs as [-> _]. done.
  - unfold chain_budget in *. simpl. lia.
  - exists (S fuel). by rewrite E.
Qed.

Lemma insert_halts_room n :
  forall t, table_inv t -> (room t < n)%nat ->
            forall key, exists fuel, halts (xuckoo_hash_table_insert fuel t key).
Proof.
  induction n as [|n IH]; intros t Hinv Hroom key; [lia|].
  destruct (insert_unfold t key Hinv) as [E | (op & loop & ot & E & _)].
  - exists 1%nat. rewrite E. right. eauto.
  - destruct (try_halts n IH (chain_budget t loop) t key op key loop ot)
      as [fuel [Hh | (b & t' & Hh & Hinv')]]; [done|lia|done|..].
    + exists (S fuel). rewrite E, Hh. by left.
    + exists (S fuel). rewrite E, Hh. right. eauto.
Qed.

Lemma insert_halts t key :
  table_inv t -> exists fuel, halts (xuckoo_hash_table_insert fuel t key).
Proof. intros Hinv. by apply (insert_halts_room (S (room t))); [|lia]. Qed.

(** More fuel does not change a result. *)
Lemma fuel_mono fuel :
  (forall t key r fuel',
     xuckoo_hash_table_insert fuel t key = r -> r <> OutOfFuel ->
     (fuel <= fuel')%nat -> xuckoo_hash_table_insert fuel' t key = r) /\
  (forall t key orig_pos orig_key loop orig_table r fuel',
     try_xuck_insert fuel t key orig_pos orig_key loop orig_table = r ->
     r <> OutOfFuel -> (fuel <= fuel')%nat ->
     try_xuck_insert fuel' t key orig_pos orig_key loop orig_table = r).
Proof.
  induction fuel as [|fuel [IHi IHt]]; [split; intros; simpl in *; congruence|].
  assert (Hb : forall {A B} (r : Result A) (k : A -> Result B),
             bind r k <> OutOfFuel -> r <> OutOfFuel)
    by (intros A B [] k; simpl; congruence).
  split.
  - intros t key r [|fuel'] Hrun Hr Hle; [lia|].
    cbn [xuckoo_hash_table_insert] in *.
    destruct (xuckoo_hash_table_lookup t key) as [[found t0]| | |];
      cbn [bind] in *; try done.
    destruct found; [done|].
    destruct (it_nkeys (table1 t0) <=? it_nkeys (table2 t0)).
    + rewrite (IHt _ _ _ _ _ _ _ fuel' eq_refl); [done| |lia].
      rewrite <- Hrun in Hr. by apply Hb in Hr.
    + rewrite (IHt _ _ _ _ _ _ _ fuel' eq_refl); [done| |lia].
      rewrite <- Hrun in Hr. by apply Hb in Hr.
  - intros t key op ok loop ot r [|fuel'] Hrun Hr Hle; [lia|].
    cbn [try_xuck_insert] in *.
    destruct (must_split _ _ _ _ _ _).
    + destruct (split_bucket _ _ _) as [t1| | |]; cbn [bind] in *; try done.
      apply IHi; [done|done|lia].
    + destruct (get_slot _ _) as [p| | |]; cbn [bind] in *; try done.
      destruct (read_bucket _ _) as [b| | |]; cbn [bind] in *; try done.
      destruct (bk_full b); [|done].
      destruct (write_bucket _ _ _) as [m'| | |]; cbn [bind] in *; try done.
      apply IHt; [done|done|lia].
Qed.

End Termination.

Section Sharing.

Lemma filter_eq_none (l : list nat) (p : nat) :
  (forall j, l !! j <> Some p) -> filter (fun q => q = p) l = [].
Proof.
  induction l as [|x l IH]; intros H; [done|].
  rewrite filter_cons_False.
  - apply IH. intros j. apply (H (S j)).
  - intros ->. by apply (H 0%nat).
Qed.

Lemma count_suffix (p : nat) (d i : Z) (e : nat) (l : list nat) :
  0 <= d -> 0 <= i < 2 ^ d ->
  Z.of_nat (length l) = 2 ^ (d + Z.of_nat e) ->
  (forall j, (j < length l)%nat ->
             l !! j = Some p <-> Z.of_nat j mod 2 ^ d = i) ->
  Z.of_nat (length (filter (fun q => q = p) l)) = 2 ^ Z.of_nat e.
Proof.
  intros Hd Hi. revert l. induction e as [|e IH]; intros l Hlen Hpt.
  - rewrite Z.add_0_r in Hlen.
    assert (Hp : l !! Z.to_nat i = Some p).
    { apply Hpt; [lia|]. rewrite Z2Nat.id by lia. apply Z.mod_small. lia. }
    rewrite <- (take_drop_middle l _ _ Hp), filter_app, filter_cons_True by done.
    rewrite !filter_eq_none; [done|..].
    + intros j Hj. rewrite lookup_drop in Hj.
      apply lookup_lt_Some in Hj as Hlt. apply Hpt in Hj; [|done].
      rewrite Z.mod_small in Hj by lia. lia.
    + intros j Hj. destruct (decide (j < Z.to_nat i)%nat) as [Hlt|Hge].
      * rewrite lookup_take_lt in Hj by done.
        apply Hpt in Hj; [|lia]. rewrite Z.mod_small in Hj by lia. lia.
      * rewrite lookup_take_ge in Hj by lia. done.
  - assert (Hpos : 0 < 2 ^ (d + Z.of_nat e)) by (apply pow2_pos; lia).
    assert (Hdpos : 0 < 2 ^ d) by (by apply pow2_pos).
    assert (Hsplit : 2 ^ (d + Z.of_nat (S e)) = 2 * 2 ^ (d + Z.of_nat e)).
    { replace (d + Z.of_nat (S e)) with (d + Z.of_nat e + 1) by lia.
      rewrite Z.pow_add_r, Z.pow_1_r by lia. lia. }
    set (h := Z.to_nat (2 ^ (d + Z.of_nat e))).
    rewrite <- (take_drop h l), filter_app, length_app, Nat2Z.inj_add.
    rewrite (IH (take h l)), (IH (drop h l)).
    + replace (Z.of_nat (S e)) with (Z.of_nat e + 1) by lia.
      rewrite Z.pow_add_r, Z.pow_1_r by lia. lia.
    + rewrite length_drop. lia.
    + intros j Hj. rewrite length_drop in Hj. rewrite lookup_drop.
      rewrite Hpt by lia.
      replace (Z.of_nat (h + j)) with (Z.of_nat j + 2 ^ Z.of_nat e * 2 ^ d).
      * by rewrite Z.mod_add by lia.
      * rewrite <- Z.pow_add_r by lia. unfold h.
        rewrite (Z.add_comm (Z.of_nat e)). lia.
    + rewrite length_take. lia.
    + intros j Hj. rewrite length_take in Hj.
      rewrite lookup_take_lt by lia. apply Hpt. lia.
Qed.

Lemma wf_inner_sharing m T : wf_inner m T -> slot_sharing m T.
Proof.
  intros HT p Hin. pose proof HT as (HD & Hsz & Hlen & Hsl).
  apply (elem_of_slots m T p HT) in Hin as (a & Ha & Hp).
  destruct (Hsl _ Ha) as (p0 & b & Hp0 & Hb & Hd & Hid & Hcl).
  assert (p0 = p) as -> by congruence. exists b. split; [done|].
  assert (Hiff : forall a', 0 <= a' < it_size T ->
            it_buckets T !! Z.to_nat a' = Some p <->
            a' mod 2 ^ bk_depth b = bk_id b).
  { intros a' Ha'. split; [|by apply Hcl].
    intros Hp'. destruct (Hsl _ Ha') as (p1 & b1 & Hp1 & Hb1 & _ & Hid1 & _).
    assert (p1 = p) as -> by congruence.
    assert (b1 = b) as -> by congruence. done. }
  split; [lia|]. split; [|done].
  replace (it_depth T - bk_depth b)
    with (Z.of_nat (Z.to_nat (it_depth T - bk_depth b))) by lia.
  apply (count_suffix p (bk_depth b) (bk_id b)); [lia| | |].
  - rewrite Hid. apply Z.mod_pos_bound, pow2_pos. lia.
  - rewrite Hlen, Hsz. f_equal. lia.
  - intros j Hj. rewrite <- (Nat2Z.id j) at 1. apply Hiff. lia.
Qed.

End Sharing.

Section Teardown.

Lemma wf_inner_owner m T p b :
  wf_inner m T -> p ∈ it_buckets T -> m !! p = Some (Some b) ->
  0 <= bk_id b < it_size T /\
  it_buckets T !! Z.to_nat (bk_id b) = Some p.
Proof.
  intros HT Hin Hb. pose proof HT as (HD & Hsz & Hlen & Hsl).
  apply (elem_of_slots m T p HT) in Hin as (a & Ha & Hp).
  destruct (Hsl _ Ha) as (p0 & b0 & Hp0 & Hb0 & Hd & Hid & Hcl).
  assert (p0 = p) as -> by congruence.
  assert (b0 = b) as -> by congruence.
  assert (Hpos : 0 < 2 ^ bk_depth b) by (apply pow2_pos; lia).
  assert (Hi : 0 <= bk_id b < 2 ^ bk_depth b)
    by (rewrite Hid; apply Z.mod_pos_bound; lia).
  assert (Hle : 2 ^ bk_depth b <= 2 ^ it_depth T) by (apply pow2_le; lia).
  split; [lia|]. apply Hcl; [lia|]. apply Z.mod_small. lia.
Qed.

Lemma reverse_seqZ_S (n : nat) :
  reverse (seqZ 0 (Z.of_nat (S n))) = Z.of_nat n :: reverse (seqZ 0 (Z.of_nat n)).
Proof. by rewrite seqZ_S, reverse_app. Qed.

Lemma free_inner_loop m0 T (freed0 : list nat) :
  wf_inner m0 T ->
  (forall p, p ∈ it_buckets T -> p ∉ freed0) ->
  forall (n : nat) m (freed : list nat),
    Z.of_nat n <= it_size T ->
    length m = length m0 ->
    (forall p b, p ∈ it_buckets T -> m0 !! p = Some (Some b) ->
       m !! p = if bool_decide (Z.of_nat n <= bk_id b) then Some None
                else Some (Some b)) ->
    (forall p, p ∉ it_buckets T -> m !! p = m0 !! p) ->
    NoDup freed ->
    (forall p, p ∈ freed <->
       p ∈ freed0 \/
       (p ∈ it_buckets T /\
        exists b, m0 !! p = Some (Some b) /\ Z.of_nat n <= bk_id b)) ->
    exists m' freed',
      for_each (fun i '(m, freed) =>
                  let* p := get_slot (it_buckets T) i in
                  let* b := read_bucket m p in
                  if bk_id b =? i then
                    let* m' := free_bucket m p in Ok (m', freed ++ [p])
                  else Ok (m, freed))
               (reverse (seqZ 0 (Z.of_nat n))) (m, freed) = Ok (m', freed') /\
      length m' = length m0 /\
      (forall p, p ∈ it_buckets T -> m' !! p = Some None) /\
      (forall p, p ∉ it_buckets T -> m' !! p = m0 !! p) /\
      NoDup freed' /\
      (forall p, p ∈ freed' <-> p ∈ freed0 \/ p ∈ it_buckets T).
Proof.
  intros HT Hfresh. induction n as [|k IH];
    intros m freed Hn Hlen Hin Hout Hnd Hmem.
  - exists m, freed. split; [done|]. split; [done|].
    assert (Hb : forall p, p ∈ it_buckets T ->
              exists b, m0 !! p = Some (Some b) /\ 0 <= bk_id b).
    { intros p Hp. pose proof Hp as Hp'.
      apply (elem_of_slots m0 T p HT) in Hp' as (a & Ha & Hpa).
      destruct (wf_inner_bucket m0 T a HT Ha) as (p1 & b & Hp1 & Hb & _ & Hi & _).
      assert (p1 = p) as -> by congruence. exists b. split; [done|lia]. }
    split_and!; try done.
    + intros p Hp. destruct (Hb p Hp) as (b & Hb0 & Hi).
      rewrite (Hin p b Hp Hb0). by rewrite bool_decide_eq_true_2 by lia.
    + intros p. rewrite Hmem. split.
      * intros [?|[? _]]; auto.
      * intros [?|Hp]; [by left|]. right. split; [done|].
        destruct (Hb p Hp) as (b & ? & ?). eauto.
  - rewrite reverse_seqZ_S. cbn [for_each].
    assert (Ha : 0 <= Z.of_nat k < it_size T) by lia.
    destruct (wf_inner_bucket m0 T _ HT Ha) as (p & b & Hp & Hb & Hd & Hi & Hid).
    rewrite Nat2Z.id in Hp.
    assert (HpT : p ∈ it_buckets T) by (by eapply list_elem_of_lookup_2).
    assert (Hidk : bk_id b <= Z.of_nat k).
    { rewrite Hid. apply Z.mod_le; [lia|]. apply pow2_pos. lia. }
    assert (Hown : forall p' b', p' ∈ it_buckets T -> m0 !! p' = Some (Some b') ->
              bk_id b' = Z.of_nat k -> p' = p).
    { intros p' b' Hp' Hb' Hk.
      destruct (wf_inner_owner m0 T p' b' HT Hp' Hb') as [_ Ho].
      rewrite Hk, Nat2Z.id in Ho. congruence. }
    assert (Hg : get_slot (it_buckets T) (Z.of_nat k) = Ok p).
    { apply get_slot_Ok. rewrite Nat2Z.id. split; [lia|done]. }
    assert (Hmp : m !! p = Some (Some b)).
    { rewrite (Hin p b HpT Hb). by rewrite bool_decide_eq_false_2 by lia. }
    rewrite Hg. cbn [bind]. rewrite (proj2 (read_bucket_Ok m p b) Hmp).
    cbn [bind]. destruct (Z.eqb_spec (bk_id b) (Z.of_nat k)) as [Hk|Hk].
    + unfold free_bucket. rewrite Hmp. cbn [bind].
      apply IH; [lia|by rewrite length_insert|..].
      * intros p' b' Hp' Hb'. destruct (decide (p' = p)) as [->|Hne].
        -- assert (b' = b) as -> by congruence.
           rewrite list_lookup_insert_eq by (by eapply lookup_lt_Some).
           by rewrite bool_decide_eq_true_2 by lia.
        -- rewrite list_lookup_insert_ne by done. rewrite (Hin p' b' Hp' Hb').
           assert (bk_id b' <> Z.of_nat k) by (intros E; by apply Hne, (Hown p' b')).
           rewrite (bool_decide_ext (Z.of_nat (S k) <= bk_id b')
                      (Z.of_nat k <= bk_id b')) by lia. done.
      * intros p' Hp'. rewrite list_lookup_insert_ne by (intros ->; done).
        by apply Hout.
      * apply NoDup_app. split; [done|]. split; [|apply NoDup_singleton].
        intros p' Hp' Hp''. apply list_elem_of_singleton in Hp'' as ->.
        apply Hmem in Hp' as [Hp'|(_ & b' & Hb' & Hle)].
        -- by apply (Hfresh p).
        -- assert (b' = b) as -> by congruence. lia.
      * intros p'. rewrite elem_of_app, list_elem_of_singleton, Hmem. split.
        -- intros [[?|(Hp' & b' & Hb' & Hle)]| ->]; [by left| |].
           ++ right. split; [done|]. exists b'. split; [done|lia].
           ++ right. split; [done|]. exists b. split; [done|lia].
        -- intros [?|(Hp' & b' & Hb' & Hle)]; [by left; left|].
           destruct (decide (bk_id b' = Z.of_nat k)) as [E|E].
           ++ right. by apply (Hown p' b').
           ++ left. right. split; [done|]. exists b'. split; [done|lia].
    + apply IH; [lia|done|..|done|done|].
      * intros p' b' Hp' Hb'. rewrite (Hin p' b' Hp' Hb').
        assert (bk_id b' <> Z.of_nat k).
        { intros E. assert (p' = p) as -> by (by apply (Hown p' b')).
          congruence. }
        rewrite (bool_decide_ext (Z.of_nat (S k) <= bk_id b')
                   (Z.of_nat k <= bk_id b')) by lia. done.
      * intros p'. rewrite Hmem. split.
        -- intros [?|(Hp' & b' & Hb' & Hle)]; [by left|].
           right. split; [done|]. exists b'. split; [done|lia].
        -- intros [?|(Hp' & b' & Hb' & Hle)]; [by left|].
           right. split; [done|]. exists b'. split; [done|].
           assert (bk_id b' <> Z.of_nat k); [|lia].
           intros E. assert (p' = p) as -> by (by apply (Hown p' b')).
           congruence.
Qed.

Lemma free_inner_ok m0 T (freed0 : list nat) :
  wf_inner m0 T ->
  (forall p, p ∈ it_buckets T -> p ∉ freed0) -> NoDup freed0 ->
  exists m' freed',
    free_inner T (m0, freed0) = Ok (m', freed') /\
    length m' = length m0 /\
    (forall p, p ∈ it_buckets T -> m' !! p = Some None) /\
    (forall p, p ∉ it_buckets T -> m' !! p = m0 !! p) /\
    NoDup freed' /\
    (forall p, p ∈ freed' <-> p ∈ freed0 \/ p ∈ it_buckets T).
Proof.
  intros HT Hfresh Hnd. unfold free_inner.
  pose proof HT as (HD & Hsz & Hlen & _).
  assert (Hpos : 0 < 2 ^ it_depth T) by (by apply pow2_pos).
  assert (E : Z.of_nat (Z.to_nat (it_size T)) = it_size T) by lia.
  destruct (free_inner_loop m0 T freed0 HT Hfresh (Z.to_nat (it_size T))
              m0 freed0) as (m' & freed' & Hrun & Hrest); try done; try lia.
  3:{ rewrite E in Hrun. by exists m', freed'. }
  - intros p b Hp Hb. rewrite bool_decide_eq_false_2; [done|].
    destruct (wf_inner_owner m0 T p b HT Hp Hb). lia.
  - intros p. split; [by left|]. intros [?|(Hp & b & Hb & Hle)]; [done|].
    destruct (wf_inner_owner m0 T p b HT Hp Hb). lia.
Qed.

End Teardown.

(** * The specification, claim by claim *)

Section Claims.

(** What [insert] returns is the negation of what [lookup] finds, and a
    refused insert leaves the table as it was. *)
Lemma insert_result fuel t key b t' :
  xuckoo_hash_table_insert fuel t key = Ok (b, t') ->
  exists found,
    xuckoo_hash_table_lookup t key = Ok (found, t) /\ b = negb found /\
    (b = false -> t' = t).
Proof.
  destruct fuel as [|fuel]; [discriminate|]. cbn [xuckoo_hash_table_insert].
  intros H. apply bind_Ok in H as ([found t0] & Hl & H).
  pose proof (lookup_same _ _ _ _ Hl) as ->. exists found. split; [done|].
  destruct found; [injection H as <- <-; done|].
  destruct (it_nkeys (table1 t) <=? it_nkeys (table2 t));
    apply bind_Ok in H as ([? ?] & _ & H); injection H as <- <-; done.
Qed.

Lemma reachable_insert_all fuel keys :
  forall t rs t',
    reachable t -> insert_all fuel t keys = Ok (rs, t') -> reachable t'.
Proof.
  induction keys as [|k keys IH]; intros t rs t' Hr H; simpl in H.
  - by injection H as _ <-.
  - apply bind_Ok in H as ([r t1] & H1 & H).
    apply bind_Ok in H as ([rs' t2] & H2 & H). injection H as _ <-.
    eapply IH; [|exact H2]. by eapply reachable_insert.
Qed.

Lemma reachable_run_inserts fuel t keys :
  reachable t -> reachable (run_inserts fuel t keys).
Proof.
  intros Hr. unfold run_inserts.
  destruct (insert_all fuel t keys) as [[rs t']| | |] eqn:E; try done.
  by eapply reachable_insert_all.
Qed.

(** C5. On a well-formed table, [lookup] answers true exactly when the
    bucket at the low-order [it_depth] bits of [h1 key] in table 1 is
    occupied and stores the key, or the bucket at the low-order [it_depth]
    bits of [h2 key] in table 2 is; the table it hands back is the table it
    was given. *)
Theorem lookup_finds_key_at_its_addresses t key :
  table_inv t ->
  exists p1 b1 p2 b2 found,
    it_buckets (table1 t) !! Z.to_nat (h1 key mod 2 ^ it_depth (table1 t))
      = Some p1 /\
    store t !! p1 = Some (Some b1) /\
    it_buckets (table2 t) !! Z.to_nat (h2 key mod 2 ^ it_depth (table2 t))
      = Some p2 /\
    store t !! p2 = Some (Some b2) /\
    xuckoo_hash_table_lookup t key = Ok (found, t) /\
    (found = true <->
     (bk_full b1 = true /\ bk_key b1 = key) \/
     (bk_full b2 = true /\ bk_key b2 = key)).
Proof.
  clear uninit_key. intros ((H1 & H2 & _) & _).
  pose proof H1 as (HD1 & _). pose proof H2 as (HD2 & _).
  destruct (wf_inner_access _ _ _ H1 (wf_inner_address _ _ (h1 key) H1))
    as (p1 & b1 & Hg1 & Hr1 & Hb1).
  destruct (wf_inner_access _ _ _ H2 (wf_inner_address _ _ (h2 key) H2))
    as (p2 & b2 & Hg2 & Hr2 & Hb2).
  unfold xuckoo_hash_table_lookup.
  rewrite Hg1. cbn [bind]. rewrite Hr1. cbn [bind].
  rewrite Hg2. cbn [bind]. rewrite Hr2. cbn [bind].
  apply get_slot_Ok in Hg1 as [_ Hg1], Hg2 as [_ Hg2].
  rewrite rightmostnbits_mod in Hg1, Hg2 by done.
  eexists p1, b1, p2, b2, _. split_and!; try done.
  destruct (bk_full b1), (bk_full b2); cbn;
    rewrite ?Z.eqb_eq; destruct (Z.eqb_spec (bk_key b1) key); cbn;
    rewrite ?Z.eqb_eq; intuition congruence.
Qed.

(** C6 (amended). [double_table] stops at the assertion exactly when twice
    the size is not below [MAX_TABLE_SIZE], that is when the new size would
    reach or exceed it; otherwise it returns the table with twice the
    slots, each old slot unchanged and copied [it_size] places up, and with
    the depth incremented.  It has no other outcome. *)
Theorem double_table_doubles T :
  Z.of_nat (length (it_buckets T)) = it_size T ->
  (double_table T = Abort <-> MAX_TABLE_SIZE <= it_size T * 2) /\
  (it_size T * 2 < MAX_TABLE_SIZE ->
   exists T',
     double_table T = Ok T' /\
     it_size T' = it_size T * 2 /\
     Z.of_nat (length (it_buckets T')) = it_size T' /\
     it_depth T' = it_depth T + 1 /\
     it_nkeys T' = it_nkeys T /\
     forall a, 0 <= a < it_size T ->
       it_buckets T' !! Z.to_nat a = it_buckets T !! Z.to_nat a /\
       it_buckets T' !! Z.to_nat (a + it_size T) = it_buckets T !! Z.to_nat a).
Proof.
  intros Hlen. rewrite double_table_spec by done.
  destruct (Z.ltb_spec (it_size T * 2) MAX_TABLE_SIZE) as [Hlt|Hge].
  - split; [split; [discriminate|lia]|]. intros _.
    eexists. split; [done|]. cbn. split_and!; try done.
    + rewrite length_app. lia.
    + intros a Ha. split.
      * apply lookup_app_l. lia.
      * rewrite lookup_app_r by lia. f_equal. lia.
  - split; [done|lia].
Qed.

(** C7. In every reachable state each bucket of either inner table has a
    depth of at most the depth of the table and is pointed at from exactly
    [2^(it_depth - bk_depth)] slots, those whose address ends in the
    [bk_depth] low-order bits of its [bk_id]; the same holds after any
    split and any growth of such a table. *)
Theorem slot_sharing_reachable t :
  reachable t ->
  (slot_sharing (store t) (table1 t) /\ slot_sharing (store t) (table2 t)) /\
  (forall a no t',
     split_bucket t a no = Ok t' ->
     slot_sharing (store t') (table1 t') /\
     slot_sharing (store t') (table2 t')) /\
  (forall no T',
     double_table (inner_of t no) = Ok T' -> slot_sharing (store t) T').
Proof.
  intros Hr. apply reachable_inv in Hr as Hinv.
  assert (Hs : forall t0, table_inv t0 ->
            slot_sharing (store t0) (table1 t0) /\
            slot_sharing (store t0) (table2 t0)).
  { intros t0 ((H1 & H2 & _) & _). split; by apply wf_inner_sharing. }
  split; [by apply Hs|]. split.
  - intros a no t' Hsp. apply Hs. by apply (split_bucket_inv t a no).
  - intros no T' Hd.
    destruct (inner_other_inv t no Hinv) as ((HT & _) & _).
    rewrite double_table_spec in Hd by apply HT.
    destruct (it_size (inner_of t no) * 2 <? MAX_TABLE_SIZE); [|done].
    injection Hd as <-. by apply wf_inner_sharing, wf_inner_double.
Qed.

(** C9. From every reachable state an insert of any key comes to an end
    after finitely many calls of the displacement step and of the restarted
    insert: with enough fuel the model returns a result in a well-formed
    table or stops at the size assertion, and more fuel does not change the
    outcome. *)
Theorem insert_terminates t key :
  reachable t ->
  exists fuel,
    halts (xuckoo_hash_table_insert fuel t key) /\
    forall fuel', (fuel <= fuel')%nat ->
      xuckoo_hash_table_insert fuel' t key =
      xuckoo_hash_table_insert fuel t key.
Proof.
  intros Hr. apply reachable_inv in Hr.
  destruct (insert_halts t key Hr) as [fuel Hh]. exists fuel.
  split; [done|]. intros fuel' Hle.
  apply (proj1 (fuel_mono fuel)); [done| |done].
  destruct Hh as [->|(b & t' & -> & _)]; discriminate.
Qed.

(** C10. In every reachable state each bucket an inner table points at is
    found at exactly one slot whose address is its [bk_id], and the
    teardown scan succeeds, passes every bucket of the two tables to [free]
    exactly once, and leaves no bucket allocated. *)
Theorem teardown_frees_each_bucket_once t :
  reachable t ->
  (forall no p, p ∈ it_buckets (inner_of t no) ->
     exists b, store t !! p = Some (Some b) /\
       forall a,
         (0 <= a < it_size (inner_of t no) /\
          it_buckets (inner_of t no) !! Z.to_nat a = Some p /\ bk_id b = a)
         <-> a = bk_id b) /\
  exists m' freed,
    free_xuckoo_hash_table t = Ok (m', freed) /\
    NoDup freed /\
    (forall p, p ∈ freed <->
               p ∈ it_buckets (table1 t) \/ p ∈ it_buckets (table2 t)) /\
    length m' = length (store t) /\
    (forall p, (p < length (store t))%nat -> m' !! p = Some None).
Proof.
  intros Hr. apply reachable_inv in Hr as Hinv. split.
  - intros no p Hp.
    destruct (inner_other_inv t no Hinv) as ((HT & _) & _).
    pose proof Hp as Hp'.
    apply (elem_of_slots _ _ p HT) in Hp' as (a0 & Ha0 & Hpa).
    destruct (wf_inner_bucket _ _ a0 HT Ha0) as (p0 & b & Hp0 & Hb & _).
    assert (p0 = p) as -> by congruence.
    exists b. split; [done|]. intros a.
    destruct (wf_inner_owner _ _ p b HT Hp Hb) as [Hrange Hown].
    split; [by intros (_ & _ & <-)|]. intros ->. done.
  - destruct Hinv as ((H1 & H2 & Hdis & Hcov) & _).
    unfold free_xuckoo_hash_table.
    destruct (free_inner_ok (store t) (table1 t) [] H1)
      as (m1 & f1 & -> & Hl1 & Hin1 & Hout1 & Hnd1 & Hmem1).
    { intros p _. apply not_elem_of_nil. }
    { apply NoDup_nil_2. }
    cbn [bind].
    assert (H2' : wf_inner m1 (table2 t)).
    { eapply wf_inner_shape; [exact H2|]. intros p b Hp Hb.
      exists b. rewrite Hout1; [done|]. intros Hp1. by apply (Hdis p). }
    destruct (free_inner_ok m1 (table2 t) f1 H2')
      as (m2 & f2 & -> & Hl2 & Hin2 & Hout2 & Hnd2 & Hmem2).
    { intros p Hp Hf. apply Hmem1 in Hf as [Hf|Hf].
      - by apply not_elem_of_nil in Hf.
      - by apply (Hdis p). }
    { done. }
    exists m2, f2. split_and!; try done.
    + intros p. rewrite Hmem2, Hmem1. split.
      * intros [[Hf|?]|?]; [by apply not_elem_of_nil in Hf|by left|by right].
      * intros [?|?]; [left; by right|by right].
    + congruence.
    + intros p Hp.
      destruct (decide (p ∈ it_buckets (table2 t))) as [Hp2|Hp2];
        [by apply Hin2|].
      rewrite Hout2 by done. apply Hin1.
      by destruct (Hcov p Hp).
Qed.

End Claims.

(** * Further properties of the code *)

Section SplitDetail.

(** What [split_bucket] does to the slots and to every bucket, in full. *)
Lemma split_bucket_detail t a no :
  table_inv t -> 0 <= a < it_size (inner_of t no) ->
  split_bucket t a no = Abort \/
  exists p b T' m' tgt,
    it_buckets (inner_of t no) !! Z.to_nat a = Some p /\
    store t !! p = Some (Some b) /\
    split_bucket t a no =
      Ok (with_inner t no T'
            (mkStats (st_nbuckets (stats t) + 1) (st_nkeys (stats t))) m') /\
    wf_inner m' T' /\
    it_nkeys T' = it_nkeys (inner_of t no) /\
    it_depth (inner_of t no) <= it_depth T' <= it_depth (inner_of t no) + 1 /\
    bk_depth b < it_depth T' /\
    (forall a', 0 <= a' < it_size T' ->
       it_buckets T' !! Z.to_nat a' =
       if bool_decide (a' mod 2 ^ (bk_depth b + 1) = 2 ^ bk_depth b + bk_id b)
       then Some (length (store t))
       else it_buckets (inner_of t no)
              !! Z.to_nat (a' mod it_size (inner_of t no))) /\
    it_buckets T'
      !! Z.to_nat (rightmostnbits (it_depth T') (hash_of no (bk_key b)))
      = Some tgt /\
    m' !! p = Some (Some (mkBucket (bk_id b) (bk_depth b + 1)
                            (bool_decide (tgt = p)) (bk_key b))) /\
    m' !! length (store t) =
      Some (Some (mkBucket (2 ^ bk_depth b + bk_id b) (bk_depth b + 1)
                    (bool_decide (tgt = length (store t)))
                    (if bool_decide (tgt = length (store t)) then bk_key b
                     else uninit_key (length (store t))))) /\
    (forall p', p' <> p -> p' <> length (store t) -> p' <> tgt ->
                m' !! p' = store t !! p') /\
    (tgt <> p -> tgt <> length (store t) ->
     exists bt, store t !! tgt = Some (Some bt) /\
                m' !! tgt = Some (Some (set_full (set_key bt (bk_key b)) true))).
Proof.
  intros Hinv Ha.
  destruct (inner_other_inv t no Hinv) as (HTT & HsT & HsTo).
  unfold split_bucket.
  remember (inner_of t no) as T eqn:ET.
  remember (other_of t no) as To eqn:ETo.
  remember (store t) as m eqn:Em.
  pose proof HTT as (HT & HTo & Hdis & Hcov).
  pose proof HT as (HD & Hsz & Hlen & _).
  assert (Hpos : 0 < it_size T) by (rewrite Hsz; by apply pow2_pos).
  destruct (wf_inner_bucket m T a HT Ha) as (p & b & Hp & Hb & Hd & Hi & Hid).
  assert (Hg : get_slot (it_buckets T) a = Ok p)
    by (apply get_slot_Ok; split; [lia|done]).
  rewrite Hg. cbn [bind]. rewrite (proj2 (read_bucket_Ok m p b) Hb). cbn [bind].
  assert (Hgrow :
    (if bk_depth b =? it_depth T then double_table T else Ok T) = Abort \/
    exists T1,
      (if bk_depth b =? it_depth T then double_table T else Ok T) = Ok T1 /\
      tables_inv m T1 To /\ bk_depth b < it_depth T1 /\
      0 <= a < it_size T1 /\ it_buckets T1 !! Z.to_nat a = Some p /\
      it_nkeys T1 = it_nkeys T /\
      it_depth T <= it_depth T1 <= it_depth T + 1 /\
      (forall a', 0 <= a' < it_size T1 ->
         it_buckets T1 !! Z.to_nat a'
         = it_buckets T !! Z.to_nat (a' mod it_size T))).
  { destruct (Z.eqb_spec (bk_depth b) (it_depth T)) as [E|E].
    - rewrite double_table_spec by apply HT.
      destruct (Z.ltb_spec (it_size T * 2) MAX_TABLE_SIZE); [right|by left].
      eexists. split; [done|]. split; [by apply tables_inv_double|].
      cbn [it_size it_depth it_buckets it_nkeys].
      split; [lia|]. split; [lia|]. split.
      { rewrite lookup_app_l; [done|]. lia. }
      split; [done|]. split; [lia|].
      intros a' Ha'. rewrite <- Hlen. apply lookup_double; lia.
    - right. exists T. split_and!; try done; try lia.
      intros a' Ha'. by rewrite Z.mod_small. }
  destruct Hgrow
    as [-> | (T1 & -> & HTT1 & Hlt & Ha1 & Hp1 & Hnk & HdT1 & HT1T)];
    [by left|].
  right. cbn [bind].
  pose proof HTT1 as (HT1 & _).
  pose proof HT1 as (HD1 & Hsz1 & Hlen1 & _).
  assert (Hg1 : get_slot (it_buckets T1) a = Ok p)
    by (apply get_slot_Ok; split; [lia|done]).
  rewrite Hg1. cbn [bind]. rewrite (proj2 (read_bucket_Ok m p b) Hb). cbn [bind].
  unfold write_bucket at 1. rewrite Hb. cbn [bind]. unfold new_bucket.
  cbv beta iota zeta.
  set (d := bk_depth b) in *. set (i := bk_id b) in *.
  set (m1 := <[p := Some (set_depth b (d + 1))]> m).
  assert (Hm1 : length m1 = length m) by apply length_insert.
  set (nb := mkBucket (Z.lor (Z.shiftl 1 d) i) (d + 1) false
               (uninit_key (length m1))).
  match goal with
  | |- context [bind (for_each ?F ?I ?A) _] =>
    assert (Hloop : exists arr',
      for_each F I A = Ok arr' /\ length arr' = length (it_buckets T1) /\
      forall a', 0 <= a' < it_size T1 ->
        arr' !! Z.to_nat a' =
        if bool_decide (a' mod 2 ^ (d + 1) = 2 ^ d + i)
        then Some (length m) else it_buckets T1 !! Z.to_nat a')
  end.
  { destruct (for_each_set_slot
                (fun prefix =>
                   Z.lor (Z.shiftl prefix (d + 1))
                         (Z.lor (Z.shiftl 1 d) (rightmostnbits d i)))
                (length m1) (seqZ 0 (Z.shiftl 1 (it_depth T1 - (d + 1))))
                (it_buckets T1)) as (arr' & Hrun & Hl & Hpt).
    { intros k Hk. rewrite Hlen1, Hsz1.
      apply redirect_in_range; [lia|done|done]. }
    exists arr'. split; [exact Hrun|]. split; [done|].
    intros a' Ha'. rewrite Hpt by lia.
    rewrite (bool_decide_ext _ (a' mod 2 ^ (d + 1) = 2 ^ d + i)).
    2:{ apply redirect_member; [lia|done|lia]. }
    case_bool_decide; [|done].
    rewrite bool_decide_eq_true_2 by lia. by rewrite Hm1. }
  destruct Hloop as (arr' & -> & Hl' & Hpt). cbn [bind].
  assert (Hnid : bk_id nb = 2 ^ d + i).
  { simpl. rewrite lor_shiftl_add by lia. lia. }
  pose proof (tables_inv_split m T1 To a p b arr' nb HTT1 Ha1 Hp1 Hb Hlt Hl' Hpt
                Hnid eq_refl) as HTT2.
  fold d m1 in HTT2.
  set (m2 := m1 ++ [Some nb]) in *.
  apply lookup_lt_Some in Hb as Hpl.
  assert (Hm2p : m2 !! p = Some (Some (set_depth b (d + 1)))).
  { unfold m2. rewrite lookup_app_l by lia. unfold m1.
    by apply list_lookup_insert_eq. }
  assert (Hm2q : m2 !! length m = Some (Some nb)).
  { unfold m2. rewrite lookup_app_r by lia. by rewrite Hm1, Nat.sub_diag. }
  assert (Hm2o : forall p', p' <> p -> p' <> length m -> m2 !! p' = m !! p').
  { intros p' Hne Hnq. unfold m2.
    destruct (decide (p' < length m)%nat) as [Hl|Hl].
    - rewrite lookup_app_l by lia. by apply list_lookup_insert_ne.
    - rewrite (proj2 (lookup_ge_None m p')) by lia.
      apply lookup_ge_None. rewrite length_app, Hm1. simpl. lia. }
  rewrite (proj2 (read_bucket_Ok m2 p _) Hm2p). cbn [bind].
  destruct (write_bucket_shape m2 p (set_depth b (d + 1))
              (set_full (set_depth b (d + 1)) false)) as [-> Hs3]; try done.
  cbn [bind].
  set (m3 := <[p := Some (set_full (set_depth b (d + 1)) false)]> m2) in *.
  assert (HTT3 : tables_inv m3 (set_buckets T1 arr') To)
    by (by eapply tables_inv_shape).
  pose proof HTT3 as (HT3 & _).
  set (k := bk_key b).
  change (bk_key (set_depth b (d + 1))) with k.
  unfold reinsert_key.
  destruct (wf_inner_access m3 _ _ HT3
              (wf_inner_address m3 (set_buckets T1 arr') (hash_of no k) HT3))
    as (tgt & bt & Hgt & Hrt & Hbt).
  rewrite Hgt. cbn [bind]. rewrite Hrt. cbn [bind].
  destruct (write_bucket_shape m3 tgt bt (set_full (set_key bt k) true))
    as [-> Hs4]; try done.
  cbn [bind].
  set (m4 := <[tgt := Some (set_full (set_key bt k) true)]> m3) in *.
  assert (Hm2len : length m2 = S (length m))
    by (unfold m2; rewrite length_app, Hm1; simpl; lia).
  assert (Hm3p : m3 !! p = Some (Some (set_full (set_depth b (d + 1)) false))).
  { unfold m3. apply list_lookup_insert_eq. lia. }
  assert (Hm3o : forall p', p' <> p -> m3 !! p' = m2 !! p').
  { intros p' Hne. unfold m3. by apply list_lookup_insert_ne. }
  assert (Htl : (tgt < length m3)%nat) by (by eapply lookup_lt_Some).
  exists p, b, (set_buckets T1 arr'), m4, tgt.
  split; [done|]. split; [done|]. split; [reflexivity|].
  split; [eapply wf_inner_shape; [exact HT3|by apply same_shape_on]|].
  split; [done|]. split; [done|]. split; [exact Hlt|]. split.
  { intros a' Ha'. cbn [set_buckets it_buckets it_size] in Ha' |- *.
    fold d i. rewrite Hpt by done. case_bool_decide; [done|]. by apply HT1T. }
  split. { apply get_slot_Ok in Hgt as [_ Hgt]. exact Hgt. }
  split.
  { unfold m4. destruct (decide (tgt = p)) as [->|Hne].
    - rewrite list_lookup_insert_eq by done.
      rewrite bool_decide_eq_true_2 by done.
      rewrite Hm3p in Hbt. by injection Hbt as <-.
    - rewrite list_lookup_insert_ne by done.
      rewrite bool_decide_eq_false_2 by done. by rewrite Hm3p. }
  split.
  { unfold m4. destruct (decide (tgt = length m)) as [->|Hne].
    - rewrite list_lookup_insert_eq by done.
      rewrite !bool_decide_eq_true_2 by done.
      rewrite Hm3o, Hm2q in Hbt by lia. injection Hbt as <-.
      unfold set_full, set_key, nb; cbn [bk_id bk_depth bk_full bk_key].
      rewrite lor_shiftl_add by lia. by rewrite Z.mul_1_l.
    - rewrite list_lookup_insert_ne by done.
      rewrite !bool_decide_eq_false_2 by done.
      rewrite Hm3o, Hm2q by lia. unfold nb.
      rewrite lor_shiftl_add, Hm1 by lia. by rewrite Z.mul_1_l. }
  split.
  { intros p' Hnp Hnq Hnt. unfold m4.
    rewrite list_lookup_insert_ne by done. rewrite Hm3o by done.
    by apply Hm2o. }
  intros Hnp Hnq. exists bt. split.
  - rewrite <- Hbt, Hm3o by done. symmetry. by apply Hm2o.
  - unfold m4. by apply list_lookup_insert_eq.
Qed.

End SplitDetail.

Section Preservation.

(** A property of tables that holds for the fresh table and is kept by a
    split, by the swap of a displacement step and by the final placement
    holds in every reachable state. *)
Lemma run_preserves (P : XuckooHashTable -> Prop) :
  (forall t a no t',
     table_inv t -> P t -> split_bucket t a no = Ok t' -> P t') ->
  (forall t no key p b,
     table_inv t -> P t ->
     it_buckets (inner_of t no)
       !! Z.to_nat (rightmostnbits (it_depth (inner_of t no)) (hash_of no key))
       = Some p ->
     store t !! p = Some (Some b) -> bk_full b = true ->
     P (mkXuckoo (table1 t) (table2 t) (stats t)
          (<[p := Some (set_key b key)]> (store t)))) ->
  (forall t no key p b,
     table_inv t -> P t ->
     it_buckets (inner_of t no)
       !! Z.to_nat (rightmostnbits (it_depth (inner_of t no)) (hash_of no key))
       = Some p ->
     store t !! p = Some (Some b) -> bk_full b = false ->
     P (with_inner t no
          (mkInner (it_buckets (inner_of t no)) (it_size (inner_of t no))
             (it_depth (inner_of t no)) (it_nkeys (inner_of t no) + 1))
          (mkStats (st_nbuckets (stats t)) (st_nkeys (stats t) + 1))
          (<[p := Some (set_full (set_key b key) true)]> (store t)))) ->
  forall fuel,
    (forall t key r t',
       table_inv t -> P t ->
       xuckoo_hash_table_insert fuel t key = Ok (r, t') -> P t') /\
    (forall t key orig_pos orig_key loop orig_table r t',
       table_inv t -> P t ->
       try_xuck_insert fuel t key orig_pos orig_key loop orig_table
         = Ok (r, t') -> P t').
Proof.
  intros Hsplit Hswap Hplace.
  induction fuel as [|fuel [IHi IHt]]; [split; intros; discriminate|].
  split.
  - intros t key r t' Hinv HP Hrun.
    cbn [xuckoo_hash_table_insert] in Hrun.
    apply bind_Ok in Hrun as ([found t0] & Hl & Hrun).
    apply lookup_same in Hl as ->.
    destruct found; [by injection Hrun as _ <-|].
    destruct (it_nkeys (table1 t) <=? it_nkeys (table2 t));
      apply bind_Ok in Hrun as ([r1 t1] & Hrun & Hret);
      injection Hret as _ <-; by eapply IHt.
  - intros t key op ok loop ot r t' Hinv HP Hrun.
    cbn [try_xuck_insert] in Hrun.
    set (no := active_table (loop + 1)) in *.
    destruct (must_split _ _ _ _ _ _).
    + apply bind_Ok in Hrun as (t1 & Hsp & Hrun).
      eapply IHi; [| |exact Hrun].
      * by apply (split_bucket_inv _ _ _ _ Hinv Hsp).
      * by eapply Hsplit.
    + apply bind_Ok in Hrun as (p & Hg & Hrun).
      apply bind_Ok in Hrun as (b & Hr & Hrun).
      apply get_slot_Ok in Hg as [_ Hg]. apply read_bucket_Ok in Hr.
      unfold write_bucket in Hrun. rewrite Hr in Hrun. cbn [bind] in Hrun.
      destruct (bk_full b) eqn:Hf.
      * eapply IHt; [| |exact Hrun].
        -- apply table_inv_store; [done|]. by eapply same_shape_write.
        -- by eapply Hswap.
      * injection Hrun as _ <-. by eapply Hplace.
Qed.

Lemma reachable_preserves (P : XuckooHashTable -> Prop) :
  P new_xuckoo_hash_table ->
  (forall t a no t',
     table_inv t -> P t -> split_bucket t a no = Ok t' -> P t') ->
  (forall t no key p b,
     table_inv t -> P t ->
     it_buckets (inner_of t no)
       !! Z.to_nat (rightmostnbits (it_depth (inner_of t no)) (hash_of no key))
       = Some p ->
     store t !! p = Some (Some b) -> bk_full b = true ->
     P (mkXuckoo (table1 t) (table2 t) (stats t)
          (<[p := Some (set_key b key)]> (store t)))) ->
  (forall t no key p b,
     table_inv t -> P t ->
     it_buckets (inner_of t no)
       !! Z.to_nat (rightmostnbits (it_depth (inner_of t no)) (hash_of no key))
       = Some p ->
     store t !! p = Some (Some b) -> bk_full b = false ->
     P (with_inner t no
          (mkInner (it_buckets (inner_of t no)) (it_size (inner_of t no))
             (it_depth (inner_of t no)) (it_nkeys (inner_of t no) + 1))
          (mkStats (st_nbuckets (stats t)) (st_nkeys (stats t) + 1))
          (<[p := Some (set_full (set_key b key) true)]> (store t)))) ->
  forall t, reachable t -> P t.
Proof.
  intros Hnew Hsplit Hswap Hplace t Hr.
  induction Hr as [|fuel t key b t' Hr IH Hrun|t key b t' Hr IH Hrun].
  - done.
  - eapply (proj1 (run_preserves P Hsplit Hswap Hplace fuel));
      [by apply reachable_inv|exact IH|exact Hrun].
  - by rewrite (lookup_same _ _ _ _ Hrun).
Qed.

End Preservation.

Section Placement.

Lemma table_hit_spec m T no key :
  wf_inner m T ->
  exists p b,
    it_buckets T !! Z.to_nat (hash_of no key mod 2 ^ it_depth T) = Some p /\
    m !! p = Some (Some b) /\
    bk_id b = hash_of no key mod 2 ^ bk_depth b /\
    table_hit m T no key = bk_full b && (bk_key b =? key).
Proof.
  intros HT. pose proof HT as (HD & Hsz & _).
  pose proof (wf_inner_address m T (hash_of no key) HT) as Ha.
  destruct (wf_inner_bucket m T _ HT Ha) as (p & b & Hp & Hb & Hd & _ & Hid).
  exists p, b. unfold table_hit. rewrite Hp, Hb.
  rewrite rightmostnbits_mod in Hp, Hid by done.
  rewrite mod_pow2_mod in Hid by lia. done.
Qed.

Lemma lookup_hits t key :
  table_inv t ->
  xuckoo_hash_table_lookup t key =
  Ok (table_hit (store t) (table1 t) 1 key
      || table_hit (store t) (table2 t) 2 key, t).
Proof.
  intros ((H1 & H2 & _) & _). unfold xuckoo_hash_table_lookup, table_hit.
  change (hash_of 1 key) with (h1 key). change (hash_of 2 key) with (h2 key).
  destruct (wf_inner_access _ _ _ H1 (wf_inner_address _ _ (h1 key) H1))
    as (p1 & b1 & Hg1 & Hr1 & Hb1).
  destruct (wf_inner_access _ _ _ H2 (wf_inner_address _ _ (h2 key) H2))
    as (p2 & b2 & Hg2 & Hr2 & Hb2).
  rewrite Hg1. cbn [bind]. rewrite Hr1. cbn [bind].
  rewrite Hg2. cbn [bind]. rewrite Hr2. cbn [bind].
  apply get_slot_Ok in Hg1 as [_ ->], Hg2 as [_ ->]. rewrite Hb1, Hb2.
  f_equal. f_equal.
  by destruct (bk_full b1), (bk_full b2), (bk_key b1 =? key).
Qed.

(** A bucket reached through the address of a key is the right place for
    that key. *)
Lemma placed_at_address m T no key p b b' :
  wf_inner m T ->
  it_buckets T !! Z.to_nat (rightmostnbits (it_depth T) (hash_of no key))
    = Some p ->
  m !! p = Some (Some b) ->
  bk_id b' = bk_id b -> bk_depth b' = bk_depth b -> bk_key b' = key ->
  placed no b'.
Proof.
  intros HT Hp Hb Hid Hd Hk _. pose proof HT as (HD & _).
  pose proof (wf_inner_address m T (hash_of no key) HT) as Ha.
  destruct (wf_inner_bucket m T _ HT Ha) as (p0 & b0 & Hp0 & Hb0 & Hd0 & _ & Hi0).
  assert (p0 = p) as -> by congruence.
  assert (b0 = b) as -> by congruence.
  rewrite Hid, Hd, Hk, Hi0.
  rewrite rightmostnbits_mod by done. symmetry. apply mod_pow2_mod. lia.
Qed.

Lemma placed_in_write (m : list (option Bucket)) T no p b' :
  placed_in m T no -> (p ∈ it_buckets T -> placed no b') ->
  placed_in (<[p := Some b']> m) T no.
Proof.
  intros HP Hb' p0 b0 Hin Hb0. destruct (decide (p0 = p)) as [->|Hne].
  - apply lookup_lt_Some in Hb0 as Hl. rewrite length_insert in Hl.
    rewrite list_lookup_insert_eq in Hb0 by done. injection Hb0 as <-. auto.
  - rewrite list_lookup_insert_ne in Hb0 by done. by eapply HP.
Qed.

Lemma keys_placed_sides t no :
  keys_placed t <->
  placed_in (store t) (inner_of t no) no /\
  placed_in (store t) (other_of t no) (if no =? 1 then 2 else 1).
Proof.
  unfold keys_placed, inner_of, other_of, placed_in, placed, hash_of.
  destruct (Z.eqb_spec no 1) as [->|Hne]; [done|].
  cbn. split; intros [? ?]; done.
Qed.

Lemma keys_placed_with_inner t no T' st m' :
  placed_in m' T' no ->
  placed_in m' (other_of t no) (if no =? 1 then 2 else 1) ->
  keys_placed (with_inner t no T' st m').
Proof.
  unfold keys_placed, with_inner, other_of, placed_in, placed, hash_of.
  destruct (Z.eqb_spec no 1) as [->|Hne]; cbn; [done|]. intros ? ?. done.
Qed.

Lemma stored_hit m T no key :
  wf_inner m T -> placed_in m T no ->
  table_hit m T no key = true <-> stored_in m T key.
Proof.
  intros HT HP. destruct (table_hit_spec m T no key HT)
    as (p & b & Hp & Hb & Hid & ->).
  pose proof HT as (HD & Hsz & _ & Hsl).
  split.
  - intros H. apply andb_prop in H as [Hf Hk]. apply Z.eqb_eq in Hk.
    exists p, b. split_and!; try done. by eapply list_elem_of_lookup_2.
  - intros (p0 & b0 & Hin & Hb0 & Hf & Hk).
    assert (p0 = p) as ->.
    { pose proof (HP p0 b0 Hin Hb0 Hf) as Hpl. rewrite Hk in Hpl.
      apply (elem_of_slots m T p0 HT) in Hin as (a0 & Ha0 & Hp0).
      destruct (Hsl _ Ha0) as (p1 & b1 & Hp1 & Hb1 & Hd1 & _ & Hcl).
      assert (p1 = p0) as -> by congruence.
      assert (b1 = b0) as -> by congruence.
      assert (Hpos : 0 < 2 ^ it_depth T) by (by apply pow2_pos).
      specialize (Hcl (hash_of no key mod 2 ^ it_depth T)).
      rewrite Hcl in Hp.
      - congruence.
      - rewrite Hsz. by apply Z.mod_pos_bound.
      - rewrite mod_pow2_mod by lia. done. }
    assert (b0 = b) as -> by congruence.
    rewrite Hf, Hk. cbn. by apply Z.eqb_eq.
Qed.

End Placement.

Section SplitEffect.

Lemma inner_of_with_inner t no T' st m' :
  inner_of (with_inner t no T' st m') no = T' /\
  other_of (with_inner t no T' st m') no = other_of t no /\
  stats (with_inner t no T' st m') = st /\
  store (with_inner t no T' st m') = m'.
Proof. unfold inner_of, other_of, with_inner. by destruct (no =? 1). Qed.

Lemma split_bucket_in_range t a no t' :
  table_inv t -> split_bucket t a no = Ok t' ->
  0 <= a < it_size (inner_of t no).
Proof.
  intros Hinv Hsp.
  unfold split_bucket in Hsp. apply bind_Ok in Hsp as (p & Hg & _).
  apply get_slot_Ok in Hg as [? Hp]. apply lookup_lt_Some in Hp.
  destruct (inner_other_inv t no Hinv) as (((_ & _ & Hl & _) & _) & _).
  lia.
Qed.

(** The effect of a split that returns, in terms of the tables before and
    after: [p] is the bucket that was split, [tgt] the bucket that received
    its key. *)
Lemma split_bucket_effect t a no t' :
  table_inv t -> split_bucket t a no = Ok t' ->
  exists p b tgt,
    it_buckets (inner_of t no) !! Z.to_nat a = Some p /\
    store t !! p = Some (Some b) /\
    other_of t' no = other_of t no /\
    stats t' = mkStats (st_nbuckets (stats t) + 1) (st_nkeys (stats t)) /\
    it_nkeys (inner_of t' no) = it_nkeys (inner_of t no) /\
    it_depth (inner_of t no) <= it_depth (inner_of t' no)
      <= it_depth (inner_of t no) + 1 /\
    bk_depth b < it_depth (inner_of t' no) /\
    length (store t') = S (length (store t)) /\
    (forall p0, p0 ∈ it_buckets (inner_of t' no) <->
                p0 = length (store t) \/ p0 ∈ it_buckets (inner_of t no)) /\
    tgt ∈ it_buckets (inner_of t' no) /\
    it_buckets (inner_of t' no)
      !! Z.to_nat (rightmostnbits (it_depth (inner_of t' no))
                     (hash_of no (bk_key b))) = Some tgt /\
    (exists bt, store t' !! tgt = Some (Some bt) /\
                bk_full bt = true /\ bk_key bt = bk_key b) /\
    (forall p0 b0, p0 <> tgt -> store t' !! p0 = Some (Some b0) ->
                   bk_full b0 = true ->
                   p0 <> p /\ p0 <> length (store t) /\
                   store t !! p0 = Some (Some b0)) /\
    (forall p0, p0 <> p -> p0 <> length (store t) -> p0 <> tgt ->
                store t' !! p0 = store t !! p0) /\
    (forall p0, p0 ∈ it_buckets (other_of t no) ->
                store t' !! p0 = store t !! p0) /\
    (placed no b -> bk_full b = true ->
     tgt = p \/ tgt = length (store t)).
Proof.
  intros Hinv Hsp.
  pose proof (split_bucket_in_range t a no t' Hinv Hsp) as Ha.
  pose proof (proj1 (split_bucket_inv t a no t' Hinv Hsp)) as Hinv'.
  destruct (split_bucket_detail t a no Hinv Ha)
    as [E | (p & b & T' & m' & tgt & Hp & Hb & E & HT' & Hnk & HdT & Hlt
             & Hslots & Htgt & Hmp & Hmq & Hmo & Hmt)]; [congruence|].
  pose proof (proj2 (split_bucket_inv t a no t' Hinv Hsp)) as Hlen2.
  rewrite E in Hsp. injection Hsp as <-.
  destruct (inner_of_with_inner t no T'
              (mkStats (st_nbuckets (stats t) + 1) (st_nkeys (stats t))) m')
    as (Ei & Eo & Es & Em).
  rewrite Ei, Eo, Es, Em. rewrite Em in Hlen2.
  destruct (inner_other_inv t no Hinv) as (HTT & _).
  pose proof HTT as (HT & HTo & Hdis & Hcov).
  pose proof HT as (HD & Hsz & Hlen & Hsl).
  pose proof HT' as (HD' & Hsz' & Hlen' & _).
  assert (Hpos : 0 < it_size (inner_of t no)) by (rewrite Hsz; by apply pow2_pos).
  destruct (wf_inner_bucket _ _ a HT Ha) as (p1 & b1 & Hp1 & Hb1 & Hd & Hi & Hid).
  assert (p1 = p) as -> by congruence.
  assert (b1 = b) as -> by congruence.
  assert (Hdpos : 0 < 2 ^ bk_depth b) by (apply pow2_pos; lia).
  assert (Hpow : 2 ^ (bk_depth b + 1) = 2 * 2 ^ bk_depth b)
    by (rewrite Z.pow_add_r, Z.pow_1_r by lia; lia).
  assert (Hszle : it_size (inner_of t no) <= it_size T')
    by (rewrite Hsz, Hsz'; apply pow2_le; lia).
  assert (Hpl : (p < length (store t))%nat) by (by eapply lookup_lt_Some).
  assert (HpT : p ∈ it_buckets (inner_of t no))
    by (by eapply list_elem_of_lookup_2).
  (* the bucket that was split owns the redirected addresses *)
  assert (Hred : forall a', 0 <= a' < it_size (inner_of t no) ->
            a' mod 2 ^ bk_depth b = bk_id b ->
            it_buckets (inner_of t no) !! Z.to_nat a' = Some p).
  { intros a' Ha' Hm'. destruct (Hsl _ Ha) as (p2 & b2 & Hp2 & Hb2 & _ & _ & Hcl).
    assert (p2 = p) as -> by congruence.
    assert (b2 = b) as -> by congruence. by apply Hcl. }
  assert (HinT' : forall p0, p0 ∈ it_buckets T' <->
            p0 = length (store t) \/ p0 ∈ it_buckets (inner_of t no)).
  { intros p0. split.
    - intros Hin. apply (elem_of_slots _ _ p0 HT') in Hin as (a' & Ha' & Hpa).
      rewrite Hslots in Hpa by done. case_bool_decide.
      + left. congruence.
      + right. by eapply list_elem_of_lookup_2.
    - intros [->|Hin]; apply (elem_of_slots _ _ _ HT').
      + exists (2 ^ bk_depth b + bk_id b). split.
        * rewrite Hsz'.
          assert (2 ^ (bk_depth b + 1) <= 2 ^ it_depth T')
            by (apply pow2_le; lia). lia.
        * rewrite Hslots.
          -- rewrite bool_decide_eq_true_2; [done|]. apply Z.mod_small. lia.
          -- rewrite Hsz'.
             assert (2 ^ (bk_depth b + 1) <= 2 ^ it_depth T')
               by (apply pow2_le; lia). lia.
      + destruct (decide (p0 = p)) as [->|Hne].
        * exists (bk_id b).
          assert (Hir : 0 <= bk_id b < it_size (inner_of t no)).
          { rewrite Hsz.
            assert (2 ^ bk_depth b <= 2 ^ it_depth (inner_of t no))
              by (apply pow2_le; lia). lia. }
          split; [lia|]. rewrite Hslots by lia.
          rewrite bool_decide_eq_false_2 by (rewrite Z.mod_small by lia; lia).
          rewrite Z.mod_small by lia. apply Hred; [done|].
          apply Z.mod_small. lia.
        * apply (elem_of_slots _ _ p0 HT) in Hin as (a' & Ha' & Hpa).
          exists a'. split; [lia|]. rewrite Hslots by lia.
          rewrite (Z.mod_small a' (it_size (inner_of t no))) by lia.
          rewrite bool_decide_eq_false_2; [done|]. intros Hc.
          assert (it_buckets (inner_of t no) !! Z.to_nat a' = Some p);
            [|congruence].
          apply Hred; [done|].
          rewrite <- (mod_pow2_mod a' (bk_depth b) (bk_depth b + 1)) by lia.
          rewrite Hc. replace (2 ^ bk_depth b + bk_id b)
            with (bk_id b + 1 * 2 ^ bk_depth b) by lia.
          rewrite Z.mod_add by lia. apply Z.mod_small. lia. }
  assert (HtgtT' : tgt ∈ it_buckets T') by (by eapply list_elem_of_lookup_2).
  assert (HTo_lt : forall p0, p0 ∈ it_buckets (other_of t no) ->
            (p0 < length (store t))%nat).
  { intros p0 Hin.
    apply (elem_of_slots _ _ p0 HTo) in Hin as (a' & Ha' & Hp').
    destruct (wf_inner_bucket _ _ a' HTo Ha') as (p2 & b2 & Hp2 & Hb2 & _).
    assert (p2 = p0) as -> by congruence. by eapply lookup_lt_Some. }
  assert (Hbt : exists bt, m' !! tgt = Some (Some bt) /\
            bk_full bt = true /\ bk_key bt = bk_key b).
  { destruct (decide (tgt = p)) as [->|Hnp].
    { eexists. split; [exact Hmp|]. cbn. by rewrite bool_decide_eq_true_2. }
    destruct (decide (tgt = length (store t))) as [->|Hnq].
    { eexists. split; [exact Hmq|]. cbn.
      by rewrite !bool_decide_eq_true_2. }
    destruct (Hmt Hnp Hnq) as (bt & _ & Hbt). eexists. split; [exact Hbt|].
    done. }
  exists p, b, tgt. split_and!; try done; try lia.
  - intros p0 b0 Hnt Hb0 Hf.
    destruct (decide (p0 = p)) as [->|Hnp].
    { rewrite Hmp in Hb0. injection Hb0 as <-. cbn in Hf.
      by rewrite bool_decide_eq_false_2 in Hf by done. }
    destruct (decide (p0 = length (store t))) as [->|Hnq].
    { rewrite Hmq in Hb0. injection Hb0 as <-. cbn in Hf.
      by rewrite bool_decide_eq_false_2 in Hf by done. }
    split; [done|]. split; [done|]. by rewrite <- Hmo.
  - intros p0 Hin. apply Hmo.
    + intros ->. by apply (Hdis p).
    + apply HTo_lt in Hin. lia.
    + intros ->. apply HinT' in HtgtT' as [->|HtT].
      * apply HTo_lt in Hin. lia.
      * by apply (Hdis tgt).
  - intros Hplaced Hfull. specialize (Hplaced Hfull).
    set (ak := rightmostnbits (it_depth T') (hash_of no (bk_key b))) in *.
    assert (Hak : 0 <= ak < it_size T') by (by eapply wf_inner_address).
    rewrite Hslots in Htgt by done.
    destruct (decide (ak mod 2 ^ (bk_depth b + 1) = 2 ^ bk_depth b + bk_id b))
      as [Hc|Hc];
      [rewrite bool_decide_eq_true_2 in Htgt by done
      |rewrite bool_decide_eq_false_2 in Htgt by done].
    + right. congruence.
    + left. assert (it_buckets (inner_of t no)
                      !! Z.to_nat (ak mod it_size (inner_of t no)) = Some p);
        [|congruence].
      apply Hred; [apply Z.mod_pos_bound; lia|].
      rewrite Hsz, mod_pow2_mod by lia.
      unfold ak. rewrite rightmostnbits_mod, mod_pow2_mod by lia. done.
Qed.

End SplitEffect.

Section Invariants.

Lemma keys_placed_new : keys_placed new_xuckoo_hash_table.
Proof.
  split; intros p b Hp Hb Hf; cbn in Hp, Hb;
    apply list_elem_of_singleton in Hp as ->; cbn in Hb;
    injection Hb as <-; discriminate.
Qed.

Lemma keys_placed_split t a no t' :
  table_inv t -> keys_placed t -> split_bucket t a no = Ok t' ->
  keys_placed t'.
Proof.
  intros Hinv HP Hsp.
  pose proof (proj1 (split_bucket_inv t a no t' Hinv Hsp)) as Hinv'.
  destruct (split_bucket_effect t a no t' Hinv Hsp)
    as (p & b & tgt & Hp & Hb & Eo & Es & Hnk & HdT & Hlt & Hlen & HinT'
        & HtgtT' & Htgt & (bt & Hbt & Hbtf & Hbtk) & Hfull & Hmo & HmTo & _).
  apply (keys_placed_sides t no) in HP as [HPT HPo].
  apply (keys_placed_sides t' no). rewrite Eo.
  destruct (inner_other_inv t' no Hinv') as ((HT' & _) & _).
  split.
  - intros p0 b0 Hin Hb0 Hf.
    destruct (decide (p0 = tgt)) as [->|Hnt].
    + assert (b0 = bt) as -> by congruence.
      eapply (placed_at_address _ _ no (bk_key b) tgt bt bt HT' Htgt Hbt);
        done.
    + destruct (Hfull p0 b0 Hnt Hb0 Hf) as (Hnp & Hnq & Hb0').
      apply HinT' in Hin as [->|Hin]; [done|].
      by apply (HPT p0 b0 Hin Hb0').
  - intros p0 b0 Hin Hb0. rewrite HmTo in Hb0 by done. by eapply HPo.
Qed.

Lemma keys_placed_write t no key p b b' :
  table_inv t -> keys_placed t ->
  it_buckets (inner_of t no)
    !! Z.to_nat (rightmostnbits (it_depth (inner_of t no)) (hash_of no key))
    = Some p ->
  store t !! p = Some (Some b) ->
  bk_id b' = bk_id b -> bk_depth b' = bk_depth b -> bk_key b' = key ->
  placed_in (<[p := Some b']> (store t)) (inner_of t no) no /\
  placed_in (<[p := Some b']> (store t)) (other_of t no)
    (if no =? 1 then 2 else 1).
Proof.
  intros Hinv HP Hp Hb Hid Hd Hk.
  destruct (inner_other_inv t no Hinv) as ((HT & _ & Hdis & _) & _).
  apply (keys_placed_sides t no) in HP as [HPT HPo]. split.
  - apply placed_in_write; [done|]. intros _.
    by eapply (placed_at_address _ _ no key p b b' HT).
  - apply placed_in_write; [done|]. intros Hin. exfalso.
    apply (Hdis p); [by eapply list_elem_of_lookup_2|done].
Qed.

Lemma reachable_keys_placed t : reachable t -> keys_placed t.
Proof.
  apply (reachable_preserves keys_placed).
  - apply keys_placed_new.
  - intros t0 a no t' Hinv HP Hsp. by eapply keys_placed_split.
  - intros t0 no key p b Hinv HP Hp Hb Hf.
    destruct (keys_placed_write t0 no key p b (set_key b key) Hinv HP Hp Hb)
      as [H1 H2]; try done.
    by apply (keys_placed_sides _ no).
  - intros t0 no key p b Hinv HP Hp Hb Hf.
    destruct (keys_placed_write t0 no key p b (set_full (set_key b key) true)
                Hinv HP Hp Hb) as [H1 H2]; try done.
    by apply keys_placed_with_inner.
Qed.

Lemma reachable_counters t : reachable t -> counters_ok t.
Proof.
  apply (reachable_preserves counters_ok).
  - unfold counters_ok. cbn. lia.
  - intros t0 a no t' Hinv (H1 & H2 & H3 & H4) Hsp.
    destruct (split_bucket_effect t0 a no t' Hinv Hsp)
      as (p & b & tgt & _ & _ & Eo & Es & Hnk & _ & _ & Hlen & _).
    unfold counters_ok. rewrite Es, Hlen. cbn.
    revert Eo Hnk. unfold inner_of, other_of.
    destruct (no =? 1); intros -> ->; lia.
  - intros t0 no key p b Hinv (H1 & H2 & H3 & H4) Hp Hb Hf.
    unfold counters_ok. cbn. rewrite length_insert. lia.
  - intros t0 no key p b Hinv (H1 & H2 & H3 & H4) Hp Hb Hf.
    unfold counters_ok, with_inner, inner_of.
    destruct (no =? 1); cbn; rewrite length_insert; lia.
Qed.

End Invariants.

Section LookupFacts.

Lemma lookup_stored_iff t key :
  table_inv t -> keys_placed t ->
  exists r,
    xuckoo_hash_table_lookup t key = Ok (r, t) /\
    (r = true <->
     stored_in (store t) (table1 t) key \/ stored_in (store t) (table2 t) key).
Proof.
  intros Hinv [HP1 HP2]. rewrite (lookup_hits t key Hinv).
  pose proof Hinv as ((H1 & H2 & _) & _).
  eexists. split; [done|].
  rewrite orb_true_iff.
  by rewrite (stored_hit _ _ 1 key H1 HP1), (stored_hit _ _ 2 key H2 HP2).
Qed.

Lemma table_hit_place (m : list (option Bucket)) T T' n key' p b key :
  it_buckets T' = it_buckets T -> it_depth T' = it_depth T ->
  m !! p = Some (Some b) -> bk_full b = false -> key' <> key ->
  table_hit (<[p := Some (set_full (set_key b key) true)]> m) T' n key'
  = table_hit m T n key'.
Proof.
  intros Eb Ed Hb Hf Hne. unfold table_hit. rewrite Eb, Ed.
  destruct (it_buckets T !! _) as [p0|]; [|done].
  destruct (decide (p0 = p)) as [->|Hnp].
  - rewrite list_lookup_insert_eq by (by eapply lookup_lt_Some).
    rewrite Hb, Hf. cbn. by apply Z.eqb_neq.
  - by rewrite list_lookup_insert_ne.
Qed.

Lemma stored_in_split t a no t' p b :
  table_inv t -> keys_placed t -> split_bucket t a no = Ok t' ->
  it_buckets (inner_of t no) !! Z.to_nat a = Some p ->
  store t !! p = Some (Some b) -> bk_full b = true ->
  forall key,
    (stored_in (store t') (inner_of t' no) key
     <-> stored_in (store t) (inner_of t no) key) /\
    (stored_in (store t') (other_of t' no) key
     <-> stored_in (store t) (other_of t no) key).
Proof.
  intros Hinv HP Hsp Hp Hb Hf key.
  destruct (split_bucket_effect t a no t' Hinv Hsp)
    as (p1 & b1 & tgt & Hp1 & Hb1 & Eo & Es & Hnk & HdT & Hlt & Hlen & HinT'
        & HtgtT' & Htgt & (bt & Hbt & Hbtf & Hbtk) & Hfull & Hmo & HmTo
        & Htpq).
  assert (p1 = p) as -> by congruence.
  assert (b1 = b) as -> by congruence.
  apply (keys_placed_sides t no) in HP as [HPT HPo].
  assert (HpT : p ∈ it_buckets (inner_of t no))
    by (by eapply list_elem_of_lookup_2).
  specialize (Htpq (HPT p b HpT Hb) Hf).
  split.
  - split.
    + intros (p0 & b0 & Hin & Hb0 & Hf0 & Hk0).
      destruct (decide (p0 = tgt)) as [->|Hnt].
      * assert (b0 = bt) as -> by congruence.
        exists p, b. split_and!; try done. congruence.
      * destruct (Hfull p0 b0 Hnt Hb0 Hf0) as (Hnp & Hnq & Hb0').
        apply HinT' in Hin as [->|Hin]; [done|].
        by exists p0, b0.
    + intros (p0 & b0 & Hin & Hb0 & Hf0 & Hk0).
      destruct (decide (p0 = p)) as [->|Hnp].
      * assert (b0 = b) as -> by congruence.
        exists tgt, bt. split_and!; try done. congruence.
      * apply lookup_lt_Some in Hb0 as Hl.
        exists p0, b0. split_and!; try done.
        -- apply HinT'. by right.
        -- rewrite Hmo; [done|done|lia|]. destruct Htpq as [->| ->]; [done|lia].
  - rewrite Eo. split; intros (p0 & b0 & Hin & Hb0 & Hf0 & Hk0);
      exists p0, b0; split_and!; try done.
    + by rewrite <- HmTo.
    + by rewrite HmTo.
Qed.

End LookupFacts.

Section Growth2.

Lemma grows_refl t : grows t t.
Proof. unfold grows. split_and!; try lia. intros p b Hb. exists b. split_and!; [done|done|lia]. Qed.

Lemma grows_trans t1 t2 t3 : grows t1 t2 -> grows t2 t3 -> grows t1 t3.
Proof.
  intros (A1 & A2 & A3 & A4) (B1 & B2 & B3 & B4).
  unfold grows. split_and!; try lia.
  intros p b Hb. destruct (A4 p b Hb) as (b2 & Hb2 & Hi2 & Hd2).
  destruct (B4 p b2 Hb2) as (b3 & Hb3 & Hi3 & Hd3).
  exists b3. split_and!; [done|congruence|lia].
Qed.

Lemma grows_write t T1' T2' st p b b' :
  store t !! p = Some (Some b) ->
  bk_id b' = bk_id b -> bk_depth b' = bk_depth b ->
  it_depth T1' = it_depth (table1 t) -> it_depth T2' = it_depth (table2 t) ->
  grows t (mkXuckoo T1' T2' st (<[p := Some b']> (store t))).
Proof.
  intros Hb Hid Hd E1 E2. unfold grows. cbn. rewrite length_insert.
  split_and!; try lia.
  intros p0 b0 Hb0. destruct (decide (p0 = p)) as [->|Hne].
  - exists b'. rewrite list_lookup_insert_eq by (by eapply lookup_lt_Some).
    assert (b0 = b) as -> by congruence. split_and!; [done|done|lia].
  - exists b0. rewrite list_lookup_insert_ne by done. split_and!; [done|done|lia].
Qed.

Lemma grows_split t a no t' :
  table_inv t -> split_bucket t a no = Ok t' -> grows t t'.
Proof.
  intros Hinv Hsp.
  pose proof (split_bucket_in_range t a no t' Hinv Hsp) as Ha.
  destruct (split_bucket_detail t a no Hinv Ha)
    as [E | (p & b & T' & m' & tgt & Hp & Hb & E & HT' & Hnk & HdT & Hlt
             & Hslots & Htgt & Hmp & Hmq & Hmo & Hmt)]; [congruence|].
  pose proof (proj2 (split_bucket_inv t a no t' Hinv Hsp)) as Hlen.
  rewrite E in Hsp. injection Hsp as <-.
  destruct (inner_other_inv t no Hinv) as ((HT & _) & _).
  destruct (wf_inner_bucket _ _ a HT Ha) as (p1 & b1 & Hp1 & Hb1 & Hd & _).
  assert (p1 = p) as -> by congruence.
  assert (b1 = b) as -> by congruence.
  unfold grows. split_and!.
  - revert HdT. unfold with_inner, inner_of. destruct (no =? 1); cbn; lia.
  - revert HdT. unfold with_inner, inner_of. destruct (no =? 1); cbn; lia.
  - lia.
  - assert (Em : store (with_inner t no T'
                   (mkStats (st_nbuckets (stats t) + 1) (st_nkeys (stats t))) m')
                 = m') by (unfold with_inner; by destruct (no =? 1)).
    rewrite Em. intros p0 b0 Hb0. apply lookup_lt_Some in Hb0 as Hl.
    destruct (decide (p0 = p)) as [->|Hnp].
    { assert (b0 = b) as -> by congruence.
      eexists. split; [exact Hmp|]. cbn. split; [done|lia]. }
    destruct (decide (p0 = tgt)) as [->|Hnt].
    { destruct Hmt as (bt & Hbt & Hmt); [done|lia|].
      assert (bt = b0) as -> by congruence.
      eexists. split; [exact Hmt|]. cbn. split; [done|lia]. }
    exists b0. rewrite Hmo by (done || lia). split_and!; [done|done|lia].
Qed.

(** What a returning call does to the table: nothing shrinks, and the key
    count goes up by one or stays. *)
Lemma run_grows fuel :
  (forall t key r t',
     table_inv t ->
     xuckoo_hash_table_insert fuel t key = Ok (r, t') ->
     grows t t' /\
     (st_nkeys (stats t') = st_nkeys (stats t) \/
      st_nkeys (stats t') = st_nkeys (stats t) + 1)) /\
  (forall t key orig_pos orig_key loop orig_table r t',
     table_inv t ->
     try_xuck_insert fuel t key orig_pos orig_key loop orig_table = Ok (r, t') ->
     grows t t' /\
     (st_nkeys (stats t') = st_nkeys (stats t) \/
      st_nkeys (stats t') = st_nkeys (stats t) + 1)).
Proof.
  induction fuel as [|fuel [IHi IHt]]; [split; intros; discriminate|].
  split.
  - intros t key r t' Hinv Hrun.
    cbn [xuckoo_hash_table_insert] in Hrun.
    apply bind_Ok in Hrun as ([found t0] & Hl & Hrun).
    apply lookup_same in Hl as ->.
    destruct found.
    { injection Hrun as _ <-. split; [apply grows_refl|by left]. }
    destruct (it_nkeys (table1 t) <=? it_nkeys (table2 t));
      apply bind_Ok in Hrun as ([r1 t1] & Hrun & Hret);
      injection Hret as _ <-; by eapply IHt.
  - intros t key op ok loop ot r t' Hinv Hrun.
    cbn [try_xuck_insert] in Hrun.
    set (no := active_table (loop + 1)) in *.
    destruct (must_split _ _ _ _ _ _).
    + apply bind_Ok in Hrun as (t1 & Hsp & Hrun).
      pose proof (grows_split _ _ _ _ Hinv Hsp) as Hg.
      destruct (split_bucket_effect _ _ _ _ Hinv Hsp)
        as (_ & _ & _ & _ & _ & _ & Es & _).
      destruct (IHi t1 key r t' (proj1 (split_bucket_inv _ _ _ _ Hinv Hsp)) Hrun)
        as [Hg' Hn].
      split; [by eapply grows_trans|]. rewrite Es in Hn. exact Hn.
    + apply bind_Ok in Hrun as (p & Hg & Hrun).
      apply bind_Ok in Hrun as (b & Hr & Hrun).
      apply read_bucket_Ok in Hr.
      unfold write_bucket in Hrun. rewrite Hr in Hrun. cbn [bind] in Hrun.
      destruct (bk_full b) eqn:Hf.
      * destruct (IHt _ _ _ _ _ _ _ _
                    (table_inv_store t _ Hinv
                       (same_shape_write _ p b (set_key b key) Hr eq_refl eq_refl))
                    Hrun) as [Hg' Hn].
        split; [|exact Hn].
        eapply grows_trans; [|exact Hg'].
        by apply (grows_write t (table1 t) (table2 t) (stats t) p b).
      * injection Hrun as _ <-. split.
        -- unfold with_inner, inner_of. destruct (no =? 1);
             by apply (grows_write t _ _ _ p b).
        -- right. unfold with_inner. by destruct (no =? 1).
Qed.

End Growth2.

Section Displacement.

(** Overwriting the key of an occupied bucket trades the old key for the
    new one. *)
Lemma stored_swap t p b hand :
  store t !! p = Some (Some b) -> bk_full b = true ->
  p ∈ it_buckets (table1 t) \/ p ∈ it_buckets (table2 t) ->
  forall x,
    stored (mkXuckoo (table1 t) (table2 t) (stats t)
              (<[p := Some (set_key b hand)]> (store t))) x \/ x = bk_key b
    <-> stored t x \/ x = hand.
Proof.
  intros Hb Hf Hin x. apply lookup_lt_Some in Hb as Hl.
  unfold stored, stored_in. cbn [store table1 table2]. split.
  - intros [[H|H]| ->].
    + destruct H as (p0 & b0 & Hin0 & Hb0 & Hf0 & Hk0).
      destruct (decide (p0 = p)) as [->|Hne].
      * rewrite list_lookup_insert_eq in Hb0 by done. injection Hb0 as <-.
        by right.
      * rewrite list_lookup_insert_ne in Hb0 by done. left. left.
        by exists p0, b0.
    + destruct H as (p0 & b0 & Hin0 & Hb0 & Hf0 & Hk0).
      destruct (decide (p0 = p)) as [->|Hne].
      * rewrite list_lookup_insert_eq in Hb0 by done. injection Hb0 as <-.
        by right.
      * rewrite list_lookup_insert_ne in Hb0 by done. left. right.
        by exists p0, b0.
    + left. destruct Hin as [Hin|Hin]; [left|right]; by exists p, b.
  - intros [[H|H]| ->].
    + destruct H as (p0 & b0 & Hin0 & Hb0 & Hf0 & Hk0).
      destruct (decide (p0 = p)) as [->|Hne].
      * right. congruence.
      * left. left. exists p0, b0. by rewrite list_lookup_insert_ne.
    + destruct H as (p0 & b0 & Hin0 & Hb0 & Hf0 & Hk0).
      destruct (decide (p0 = p)) as [->|Hne].
      * right. congruence.
      * left. right. exists p0, b0. by rewrite list_lookup_insert_ne.
    + left. destruct Hin as [Hin|Hin]; [left|right];
        exists p, (set_key b hand);
        by rewrite list_lookup_insert_eq.
Qed.

(** Filling a free bucket adds its key. *)
Lemma stored_place t T1' T2' st p b hand :
  store t !! p = Some (Some b) -> bk_full b = false ->
  it_buckets T1' = it_buckets (table1 t) ->
  it_buckets T2' = it_buckets (table2 t) ->
  p ∈ it_buckets (table1 t) \/ p ∈ it_buckets (table2 t) ->
  forall x,
    stored (mkXuckoo T1' T2' st
              (<[p := Some (set_full (set_key b hand) true)]> (store t))) x
    <-> stored t x \/ x = hand.
Proof.
  intros Hb Hf E1 E2 Hin x. apply lookup_lt_Some in Hb as Hl.
  unfold stored, stored_in. cbn [store table1 table2]. rewrite E1, E2. split.
  - intros [H|H]; destruct H as (p0 & b0 & Hin0 & Hb0 & Hf0 & Hk0);
      (destruct (decide (p0 = p)) as [->|Hne];
       [rewrite list_lookup_insert_eq in Hb0 by done; injection Hb0 as <-;
        by right
       |rewrite list_lookup_insert_ne in Hb0 by done; left]).
    + left. by exists p0, b0.
    + right. by exists p0, b0.
  - intros [[H|H]| ->].
    + destruct H as (p0 & b0 & Hin0 & Hb0 & Hf0 & Hk0). left.
      exists p0, b0. rewrite list_lookup_insert_ne; [done|].
      intros ->. congruence.
    + destruct H as (p0 & b0 & Hin0 & Hb0 & Hf0 & Hk0). right.
      exists p0, b0. rewrite list_lookup_insert_ne; [done|].
      intros ->. congruence.
    + destruct Hin as [Hin|Hin]; [left|right];
        exists p, (set_full (set_key b hand) true);
        by rewrite list_lookup_insert_eq.
Qed.

(** A displacement chain that allocates no bucket ends by placing a key,
    counts one more key, and then the table stores what it stored plus
    the key it was given. *)
Lemma chain_without_split fuel :
  (forall t key r t',
     table_inv t ->
     xuckoo_hash_table_insert fuel t key = Ok (r, t') ->
     length (store t') = length (store t) ->
     r = true ->
     st_nkeys (stats t') = st_nkeys (stats t) + 1 /\
     forall x, stored t' x <-> stored t x \/ x = key) /\
  (forall t key orig_pos orig_key loop orig_table r t',
     table_inv t ->
     try_xuck_insert fuel t key orig_pos orig_key loop orig_table = Ok (r, t') ->
     length (store t') = length (store t) ->
     r = true /\
     st_nkeys (stats t') = st_nkeys (stats t) + 1 /\
     forall x, stored t' x <-> stored t x \/ x = key).
Proof.
  induction fuel as [|fuel [IHi IHt]]; [split; intros; discriminate|].
  split.
  - intros t key r t' Hinv Hrun Hlen Hr.
    cbn [xuckoo_hash_table_insert] in Hrun.
    apply bind_Ok in Hrun as ([found t0] & Hl & Hrun).
    apply lookup_same in Hl as ->.
    destruct found; [injection Hrun as <- _; congruence|].
    destruct (it_nkeys (table1 t) <=? it_nkeys (table2 t));
      apply bind_Ok in Hrun as ([r1 t1] & Hrun & Hret);
      injection Hret as _ <-; by eapply IHt.
  - intros t key op ok loop ot r t' Hinv Hrun Hlen.
    cbn [try_xuck_insert] in Hrun.
    set (no := active_table (loop + 1)) in *.
    destruct (must_split _ _ _ _ _ _).
    + exfalso. apply bind_Ok in Hrun as (t1 & Hsp & Hrun).
      destruct (split_bucket_inv _ _ _ _ Hinv Hsp) as [Hinv1 Hl1].
      destruct (proj1 (run_grows fuel) t1 key r t' Hinv1 Hrun)
        as [(_ & _ & Hg & _) _]. lia.
    + apply bind_Ok in Hrun as (p & Hg & Hrun).
      apply bind_Ok in Hrun as (b & Hr & Hrun).
      apply get_slot_Ok in Hg as [_ Hg]. apply read_bucket_Ok in Hr.
      assert (Hin : p ∈ it_buckets (table1 t) \/ p ∈ it_buckets (table2 t)).
      { apply list_elem_of_lookup_2 in Hg. revert Hg. unfold inner_of.
        destruct (no =? 1); auto. }
      unfold write_bucket in Hrun. rewrite Hr in Hrun. cbn [bind] in Hrun.
      destruct (bk_full b) eqn:Hf.
      * destruct (IHt _ _ _ _ _ _ _ _
                    (table_inv_store t _ Hinv
                       (same_shape_write _ p b (set_key b key) Hr eq_refl eq_refl))
                    Hrun) as (-> & Hnk & Hst).
        { cbn [store]. by rewrite length_insert. }
        split; [done|]. split; [exact Hnk|]. intros x. rewrite Hst.
        by apply stored_swap.
      * injection Hrun as <- <-. split; [done|].
        split; [unfold with_inner; by destruct (no =? 1)|]. intros x.
        unfold with_inner, inner_of.
        destruct (no =? 1); by apply stored_place.
Qed.

End Displacement.

Section MoreProperties.

(** X1. A fresh table holds no key: [lookup] answers false for every key,
    whatever the hash functions. *)
Theorem lookup_in_fresh_table key :
  xuckoo_hash_table_lookup new_xuckoo_hash_table key
  = Ok (false, new_xuckoo_hash_table).
Proof.
  clear MAX_TABLE_SIZE.
  assert (H0 : forall x, rightmostnbits 0 x = 0).
  { intros x. rewrite rightmostnbits_mod by done. apply Z.mod_1_r. }
  unfold xuckoo_hash_table_lookup.
  cbn [new_xuckoo_hash_table new_inner_table new_bucket
    table1 table2 store it_buckets it_depth].
  rewrite !H0. reflexivity.
Qed.

(** X2. In a reachable state a key that some occupied bucket of either table
    stores is refused by [insert]: the call returns false and the table is
    unchanged. *)
Theorem insert_refuses_stored_key t key fuel :
  reachable t ->
  stored_in (store t) (table1 t) key \/ stored_in (store t) (table2 t) key ->
  xuckoo_hash_table_insert (S fuel) t key = Ok (false, t).
Proof.
  intros Hr Hst.
  destruct (lookup_stored_iff t key (reachable_inv t Hr)
              (reachable_keys_placed t Hr)) as (r & Hl & Hiff).
  apply Hiff in Hst as ->. cbn [xuckoo_hash_table_insert].
  by rewrite Hl.
Qed.

(** X3. Inserting an absent key whose first probed bucket is free stores the
    key in that bucket and nowhere else: the call returns true, the key is
    found afterwards, the answer of [lookup] for every other key is what it
    was, the slots of both tables are unchanged, and the key counters of the
    probed table and of the whole table go up by one. *)
Theorem insert_into_free_bucket fuel t key p b :
  table_inv t ->
  xuckoo_hash_table_lookup t key = Ok (false, t) ->
  let no := if it_nkeys (table1 t) <=? it_nkeys (table2 t) then 1 else 2 in
  it_buckets (inner_of t no)
    !! Z.to_nat (hash_of no key mod 2 ^ it_depth (inner_of t no)) = Some p ->
  store t !! p = Some (Some b) ->
  bk_full b = false ->
  exists t',
    xuckoo_hash_table_insert (S (S fuel)) t key = Ok (true, t') /\
    store t' = <[p := Some (mkBucket (bk_id b) (bk_depth b) true key)]> (store t) /\
    it_buckets (table1 t') = it_buckets (table1 t) /\
    it_buckets (table2 t') = it_buckets (table2 t) /\
    it_nkeys (inner_of t' no) = it_nkeys (inner_of t no) + 1 /\
    it_nkeys (other_of t' no) = it_nkeys (other_of t no) /\
    st_nkeys (stats t') = st_nkeys (stats t) + 1 /\
    xuckoo_hash_table_lookup t' key = Ok (true, t') /\
    forall key' r, key' <> key ->
      xuckoo_hash_table_lookup t key' = Ok (r, t) ->
      xuckoo_hash_table_lookup t' key' = Ok (r, t').
Proof.
  intros Hinv Hl no Hp Hb Hf.
  destruct (inner_other_inv t no Hinv) as (HTT & HsT & HsTo).
  pose proof HTT as (HT & _). pose proof HT as (HD & _).
  pose proof Hinv as ((H1 & H2 & _) & _).
  pose proof H1 as (_ & Hsz1 & _). pose proof H2 as (_ & Hsz2 & _).
  assert (Hs1 : 0 < it_size (table1 t))
    by (rewrite Hsz1; apply pow2_pos, H1).
  assert (Hs2 : 0 < it_size (table2 t))
    by (rewrite Hsz2; apply pow2_pos, H2).
  rewrite <- rightmostnbits_mod in Hp by done.
  set (t' := with_inner t no
               (mkInner (it_buckets (inner_of t no)) (it_size (inner_of t no))
                  (it_depth (inner_of t no)) (it_nkeys (inner_of t no) + 1))
               (mkStats (st_nbuckets (stats t)) (st_nkeys (stats t) + 1))
               (<[p := Some (set_full (set_key b key) true)]> (store t))).
  assert (Hrun : xuckoo_hash_table_insert (S (S fuel)) t key = Ok (true, t')).
  { cbn [xuckoo_hash_table_insert]. rewrite Hl. cbn [bind].
    unfold no in *. unfold t'.
    destruct (it_nkeys (table1 t) <=? it_nkeys (table2 t));
      cbn [try_xuck_insert].
    - change (active_table (0 + 1)) with 1.
      change (hash_of 1 key) with (h1 key) in *.
      change (inner_of t 1) with (table1 t) in *.
      replace (must_split t _ key _ key (0 + 1)) with false.
      2:{ symmetry. unfold must_split. apply orb_false_iff. split.
          - apply andb_false_iff. right. done.
          - apply Z.ltb_ge. lia. }
      rewrite (proj2 (get_slot_Ok _ _ p)).
      2:{ split; [|done]. by apply rightmostnbits_range. }
      cbn [bind]. rewrite (proj2 (read_bucket_Ok _ _ _) Hb). cbn [bind].
      rewrite Hf. unfold write_bucket. rewrite Hb. done.
    - change (active_table (1 + 1)) with 2.
      change (hash_of 2 key) with (h2 key) in *.
      change (inner_of t 2) with (table2 t) in *.
      replace (must_split t _ key _ key (1 + 1)) with false.
      2:{ symmetry. unfold must_split. apply orb_false_iff. split.
          - apply andb_false_iff. right. done.
          - apply Z.ltb_ge. lia. }
      rewrite (proj2 (get_slot_Ok _ _ p)).
      2:{ split; [|done]. by apply rightmostnbits_range. }
      cbn [bind]. rewrite (proj2 (read_bucket_Ok _ _ _) Hb). cbn [bind].
      rewrite Hf. unfold write_bucket. rewrite Hb. done. }
  assert (Hinv' : table_inv t').
  { apply with_inner_inv; [|done..].
    eapply tables_inv_shape.
    - destruct HTT as (? & ? & ? & ?). split_and!; done.
    - by eapply same_shape_write. }
  assert (Et1 : it_buckets (table1 t') = it_buckets (table1 t) /\
                it_depth (table1 t') = it_depth (table1 t))
    by (unfold t', with_inner, inner_of; by destruct (no =? 1)).
  assert (Et2 : it_buckets (table2 t') = it_buckets (table2 t) /\
                it_depth (table2 t') = it_depth (table2 t))
    by (unfold t', with_inner, inner_of; by destruct (no =? 1)).
  assert (Em : store t' = <[p := Some (set_full (set_key b key) true)]> (store t))
    by (unfold t', with_inner; by destruct (no =? 1)).
  exists t'. split; [done|]. split; [done|].
  split; [apply Et1|]. split; [apply Et2|].
  split. { unfold t', with_inner, inner_of. by destruct (no =? 1). }
  split. { unfold t', with_inner, other_of. by destruct (no =? 1). }
  split. { unfold t', with_inner. by destruct (no =? 1). }
  split.
  - rewrite (lookup_hits t' key Hinv'). f_equal. f_equal.
    assert (Hhit : table_hit (store t') (inner_of t' no) no key = true).
    { unfold table_hit.
      assert (Ei : it_buckets (inner_of t' no) = it_buckets (inner_of t no) /\
                   it_depth (inner_of t' no) = it_depth (inner_of t no))
        by (unfold t', with_inner, inner_of; by destruct (no =? 1)).
      destruct Ei as [-> ->]. rewrite Hp, Em.
      rewrite list_lookup_insert_eq by (by eapply lookup_lt_Some).
      cbn. by apply Z.eqb_eq. }
    revert Hhit. unfold no, inner_of.
    destruct (it_nkeys (table1 t) <=? it_nkeys (table2 t)); cbn; intros ->;
      [done|apply orb_true_r].
  - intros key' r Hne Hl'.
    rewrite (lookup_hits t key' Hinv) in Hl'. injection Hl' as <-.
    rewrite (lookup_hits t' key' Hinv'), Em. f_equal. f_equal.
    destruct Et1 as [Eb1 Ed1], Et2 as [Eb2 Ed2].
    by rewrite (table_hit_place _ (table1 t) (table1 t') 1 key' p b key),
      (table_hit_place _ (table2 t) (table2 t') 2 key' p b key).
Qed.

(** X4. In every reachable state the key of an occupied bucket hashes to
    that bucket: the [bk_depth] low-order bits of [h1 key] (for a bucket of
    table 1) or of [h2 key] (table 2) are the bucket's [bk_id]. *)
Theorem stored_keys_hash_to_their_bucket t :
  reachable t ->
  (forall p b, p ∈ it_buckets (table1 t) -> store t !! p = Some (Some b) ->
               bk_full b = true ->
               h1 (bk_key b) mod 2 ^ bk_depth b = bk_id b) /\
  (forall p b, p ∈ it_buckets (table2 t) -> store t !! p = Some (Some b) ->
               bk_full b = true ->
               h2 (bk_key b) mod 2 ^ bk_depth b = bk_id b).
Proof.
  intros Hr. destruct (reachable_keys_placed t Hr) as [H1 H2].
  split; intros p b Hp Hb Hf; [by apply (H1 p b)|by apply (H2 p b)].
Qed.

(** X5. In every reachable state [lookup] returns, and it answers true
    exactly for the keys that some occupied bucket of table 1 or of table 2
    stores: no stored key is out of its reach. *)
Theorem lookup_true_iff_key_stored t key :
  reachable t ->
  exists r,
    xuckoo_hash_table_lookup t key = Ok (r, t) /\
    (r = true <->
     stored_in (store t) (table1 t) key \/ stored_in (store t) (table2 t) key).
Proof.
  intros Hr. apply lookup_stored_iff.
  - by apply reachable_inv.
  - by apply reachable_keys_placed.
Qed.

(** X6. Splitting an occupied bucket of a reachable table loses and adds no
    key: each table stores the same keys after the split as before, and
    [lookup] gives the same answer for every key. *)
Theorem split_of_occupied_bucket_keeps_keys t a no t' p b :
  reachable t ->
  split_bucket t a no = Ok t' ->
  it_buckets (inner_of t no) !! Z.to_nat a = Some p ->
  store t !! p = Some (Some b) ->
  bk_full b = true ->
  forall key,
    (stored_in (store t') (table1 t') key
     <-> stored_in (store t) (table1 t) key) /\
    (stored_in (store t') (table2 t') key
     <-> stored_in (store t) (table2 t) key) /\
    exists r,
      xuckoo_hash_table_lookup t key = Ok (r, t) /\
      xuckoo_hash_table_lookup t' key = Ok (r, t').
Proof.
  intros Hr Hsp Hp Hb Hf key.
  pose proof (reachable_inv t Hr) as Hinv.
  pose proof (reachable_keys_placed t Hr) as HP.
  pose proof (proj1 (split_bucket_inv t a no t' Hinv Hsp)) as Hinv'.
  pose proof (keys_placed_split t a no t' Hinv HP Hsp) as HP'.
  destruct (stored_in_split t a no t' p b Hinv HP Hsp Hp Hb Hf key)
    as [Hi Ho].
  assert (H12 : (stored_in (store t') (table1 t') key
                 <-> stored_in (store t) (table1 t) key) /\
                (stored_in (store t') (table2 t') key
                 <-> stored_in (store t) (table2 t) key)).
  { revert Hi Ho. unfold inner_of, other_of. by destruct (no =? 1). }
  destruct H12 as [E1 E2]. split; [done|]. split; [done|].
  destruct (lookup_stored_iff t key Hinv HP) as (r & Hl & Hiff).
  destruct (lookup_stored_iff t' key Hinv' HP') as (r' & Hl' & Hiff').
  exists r. split; [done|]. rewrite Hl'. f_equal. f_equal.
  rewrite E1, E2, <- Hiff in Hiff'.
  destruct r, r'; try done.
  - by destruct (proj2 Hiff' eq_refl).
  - by destruct (proj1 Hiff' eq_refl).
Qed.

(** X7. A split works on one table only.  It leaves the slots, the depth
    and the key counter of the other table and every bucket of the other
    table as they were, keeps all key counters, allocates exactly one
    bucket, adds one to the bucket counter, deepens the split table by at
    most one level, and the new bucket is the only bucket the table did not
    point at before. *)
Theorem split_bucket_frame t a no t' :
  table_inv t ->
  split_bucket t a no = Ok t' ->
  other_of t' no = other_of t no /\
  (forall p0, p0 ∈ it_buckets (other_of t no) ->
              store t' !! p0 = store t !! p0) /\
  it_nkeys (inner_of t' no) = it_nkeys (inner_of t no) /\
  st_nkeys (stats t') = st_nkeys (stats t) /\
  st_nbuckets (stats t') = st_nbuckets (stats t) + 1 /\
  length (store t') = S (length (store t)) /\
  it_depth (inner_of t no) <= it_depth (inner_of t' no)
    <= it_depth (inner_of t no) + 1 /\
  (forall p0, p0 ∈ it_buckets (inner_of t' no) <->
              p0 = length (store t) \/ p0 ∈ it_buckets (inner_of t no)).
Proof.
  intros Hinv Hsp.
  destruct (split_bucket_effect t a no t' Hinv Hsp)
    as (p & b & tgt & _ & _ & Eo & Es & Hnk & HdT & _ & Hlen & HinT'
        & _ & _ & _ & _ & _ & HmTo & _).
  rewrite Es. split_and!; try done; lia.
Qed.

(** X8. Growing a table changes no address resolution: every hash value
    reaches, through the doubled slot array and the deeper mask, the bucket
    it reached before. *)
Theorem double_table_keeps_addressing T T' :
  0 <= it_depth T ->
  it_size T = 2 ^ it_depth T ->
  Z.of_nat (length (it_buckets T)) = it_size T ->
  double_table T = Ok T' ->
  forall x,
    get_slot (it_buckets T') (rightmostnbits (it_depth T') x)
    = get_slot (it_buckets T) (rightmostnbits (it_depth T) x).
Proof.
  intros HD Hsz Hlen Hd x. rewrite double_table_spec in Hd by done.
  destruct (it_size T * 2 <? MAX_TABLE_SIZE); [|done]. injection Hd as <-.
  cbn [it_buckets it_depth].
  assert (Hpos : 0 < 2 ^ it_depth T) by (by apply pow2_pos).
  pose proof (rightmostnbits_range (it_depth T + 1) x) as Hr1.
  pose proof (rightmostnbits_range (it_depth T) x HD) as Hr0.
  rewrite Z.pow_add_r, Z.pow_1_r in Hr1 by lia.
  unfold get_slot.
  destruct (Z.ltb_spec (rightmostnbits (it_depth T + 1) x) 0); [lia|].
  destruct (Z.ltb_spec (rightmostnbits (it_depth T) x) 0); [lia|].
  rewrite lookup_double by lia. rewrite Hlen, Hsz.
  rewrite !rightmostnbits_mod by lia. rewrite mod_pow2_mod by lia. done.
Qed.

(** X9. In every reachable state the total key counter is the sum of the
    key counters of the two tables, the bucket counter counts the splits,
    so that it is two less than the number of buckets allocated, and every
    allocated bucket is pointed at: the distinct buckets of the two slot
    arrays are as many as were allocated. *)
Theorem counters_agree t :
  reachable t ->
  st_nkeys (stats t) = it_nkeys (table1 t) + it_nkeys (table2 t) /\
  0 <= it_nkeys (table1 t) /\ 0 <= it_nkeys (table2 t) /\
  Z.of_nat (length (store t)) = st_nbuckets (stats t) + 2 /\
  length (remove_dups (it_buckets (table1 t) ++ it_buckets (table2 t)))
    = length (store t).
Proof.
  intros Hr. destruct (reachable_counters t Hr) as (H1 & H2 & H3 & H4).
  split_and!; try done.
  pose proof (reachable_inv t Hr) as ((HT1 & HT2 & _ & Hcov) & _).
  transitivity (length (seq 0 (length (store t)))); [|apply length_seq].
  apply Permutation_length, NoDup_Permutation.
  - apply NoDup_remove_dups.
  - apply NoDup_seq.
  - intros p. rewrite elem_of_remove_dups, elem_of_app, elem_of_seq. split.
    + intros [Hin|Hin].
      * apply (elem_of_slots _ _ p HT1) in Hin as (a & Ha & Hp).
        destruct (wf_inner_bucket _ _ a HT1 Ha) as (p1 & b & Hp1 & Hb & _).
        assert (p1 = p) as -> by congruence.
        apply lookup_lt_Some in Hb. lia.
      * apply (elem_of_slots _ _ p HT2) in Hin as (a & Ha & Hp).
        destruct (wf_inner_bucket _ _ a HT2 Ha) as (p1 & b & Hp1 & Hb & _).
        assert (p1 = p) as -> by congruence.
        apply lookup_lt_Some in Hb. lia.
    + intros Hl. apply Hcov. lia.
Qed.

(** X10. In every reachable state each slot array has [2 ^ it_depth]
    entries, which is the recorded size, a table is the initial one-slot
    table or smaller than [MAX_TABLE_SIZE], every slot points at a live
    bucket, and the two tables share no bucket. *)
Theorem tables_well_formed t :
  reachable t ->
  (forall no,
     0 <= it_depth (inner_of t no) /\
     it_size (inner_of t no) = 2 ^ it_depth (inner_of t no) /\
     Z.of_nat (length (it_buckets (inner_of t no))) = it_size (inner_of t no) /\
     (it_size (inner_of t no) = 1 \/ it_size (inner_of t no) < MAX_TABLE_SIZE) /\
     forall p, p ∈ it_buckets (inner_of t no) ->
               exists b, store t !! p = Some (Some b)) /\
  (forall p, p ∈ it_buckets (table1 t) -> p ∉ it_buckets (table2 t)).
Proof.
  intros Hr. pose proof (reachable_inv t Hr) as Hinv. split.
  - intros no. destruct (inner_other_inv t no Hinv) as ((HT & _) & Hs & _).
    pose proof HT as (HD & Hsz & Hlen & _). split_and!; try done.
    intros p Hp. apply (elem_of_slots _ _ p HT) in Hp as (a & Ha & Hp).
    destruct (wf_inner_bucket _ _ a HT Ha) as (p1 & b & Hp1 & Hb & _).
    assert (p1 = p) as -> by congruence. eauto.
  - by destruct Hinv as ((_ & _ & Hdis & _) & _).
Qed.

(** X11. An insert never shrinks a reachable table.  When it returns, both
    depths and the number of allocated buckets are at least what they
    were, every bucket is still allocated with the id it had and a depth at
    least as large, the total key counter is unchanged or one higher, and a
    false result leaves the whole state as it was. *)
Theorem insert_only_grows t key fuel r t' :
  reachable t ->
  xuckoo_hash_table_insert fuel t key = Ok (r, t') ->
  grows t t' /\
  (st_nkeys (stats t') = st_nkeys (stats t) \/
   st_nkeys (stats t') = st_nkeys (stats t) + 1) /\
  (r = false -> t' = t).
Proof.
  intros Hr Hrun. pose proof (reachable_inv t Hr) as Hinv.
  destruct (proj1 (run_grows fuel) t key r t' Hinv Hrun) as [Hg Hnk].
  destruct (insert_result fuel t key r t' Hrun) as (found & _ & _ & Hsame).
  by split_and!.
Qed.

(** X12. An insert into a reachable table that returns true and allocates no
    bucket, so that no split ran, is a correct insert: the key was absent,
    the total key counter goes up by one, and afterwards [lookup] finds the
    new key and answers for every other key as it did before. *)
Theorem insert_without_split_is_correct t key fuel t' :
  reachable t ->
  xuckoo_hash_table_insert fuel t key = Ok (true, t') ->
  st_nbuckets (stats t') = st_nbuckets (stats t) ->
  xuckoo_hash_table_lookup t key = Ok (false, t) /\
  st_nkeys (stats t') = st_nkeys (stats t) + 1 /\
  forall x, exists r,
    xuckoo_hash_table_lookup t x = Ok (r, t) /\
    xuckoo_hash_table_lookup t' x = Ok (r || (x =? key), t').
Proof.
  intros Hr Hrun Hnb.
  pose proof (reachable_insert fuel t key true t' Hr Hrun) as Hr'.
  pose proof (reachable_inv t Hr) as Hinv.
  pose proof (reachable_inv t' Hr') as Hinv'.
  destruct (reachable_counters t Hr) as (_ & _ & _ & Hl).
  destruct (reachable_counters t' Hr') as (_ & _ & _ & Hl').
  assert (Hlen : length (store t') = length (store t)) by lia.
  destruct (proj1 (chain_without_split fuel) t key true t' Hinv Hrun Hlen eq_refl)
    as [Hnk Hst].
  destruct (insert_result fuel t key true t' Hrun) as (found & Hlk & Hf & _).
  destruct found; [done|]. split_and!; [done|done|].
  intros x.
  destruct (lookup_stored_iff t x Hinv (reachable_keys_placed t Hr))
    as (r & Hlx & Hrx).
  destruct (lookup_stored_iff t' x Hinv' (reachable_keys_placed t' Hr'))
    as (r' & Hlx' & Hrx').
  exists r. split; [done|]. rewrite Hlx'. do 2 f_equal.
  fold (stored t x) in Hrx. fold (stored t' x) in Hrx'.
  rewrite Hst, <- Hrx in Hrx'.
  apply eq_true_iff_eq. by rewrite orb_true_iff, Z.eqb_eq.
Qed.

(** X13. On a well-formed inner table [reinsert_key] stays inside the slot
    array and the allocated buckets.  It marks the bucket at the key's
    address full with that key, keeps the bucket's id and depth, changes
    no other bucket, and afterwards the key is found at its address. *)
Theorem reinsert_key_stores_key m T key no :
  wf_inner m T ->
  exists p b,
    it_buckets T !! Z.to_nat (hash_of no key mod 2 ^ it_depth T) = Some p /\
    m !! p = Some (Some b) /\
    reinsert_key m T key no
      = Ok (<[p := Some (mkBucket (bk_id b) (bk_depth b) true key)]> m) /\
    table_hit (<[p := Some (mkBucket (bk_id b) (bk_depth b) true key)]> m)
              T no key = true.
Proof.
  intros HT. pose proof HT as (HD & _).
  pose proof (wf_inner_address m T (hash_of no key) HT) as Ha.
  destruct (wf_inner_access _ _ _ HT Ha) as (p & b & Hg & Hrd & Hb).
  pose proof Hg as Hg'. apply get_slot_Ok in Hg' as [_ Hp].
  pose proof Hrd as Hb'. apply read_bucket_Ok in Hb'.
  exists p, b. rewrite <- rightmostnbits_mod by done.
  split; [done|]. split; [done|]. split.
  - unfold reinsert_key. rewrite Hg. cbn [bind]. rewrite Hrd. cbn [bind].
    unfold write_bucket. by rewrite Hb'.
  - unfold table_hit. rewrite Hp.
    rewrite list_lookup_insert_eq by by eapply lookup_lt_Some.
    cbn. apply Z.eqb_refl.
Qed.

(** X14. A split puts the key field of the bucket it splits back into the
    table without looking at the bucket's full flag: after any split that
    returns, [lookup] finds that key, whether the bucket was occupied or
    free. *)
Theorem split_makes_key_field_found t a no t' p b :
  table_inv t ->
  split_bucket t a no = Ok t' ->
  it_buckets (inner_of t no) !! Z.to_nat a = Some p ->
  store t !! p = Some (Some b) ->
  xuckoo_hash_table_lookup t' (bk_key b) = Ok (true, t').
Proof.
  intros Hinv Hsp Hp Hb.
  pose proof (proj1 (split_bucket_inv t a no t' Hinv Hsp)) as Hinv'.
  destruct (split_bucket_effect t a no t' Hinv Hsp)
    as (p0 & b0 & tgt & Hp0 & Hb0 & _ & _ & _ & _ & _ & _ & _ & _ & Htgt
        & (bt & Hbt & Hf & Hk) & _).
  assert (p0 = p) as -> by congruence.
  assert (b0 = b) as -> by congruence.
  assert (Hhit : table_hit (store t') (inner_of t' no) no (bk_key b) = true).
  { unfold table_hit. rewrite Htgt, Hbt, Hf, Hk. cbn. apply Z.eqb_refl. }
  rewrite (lookup_hits t' (bk_key b) Hinv'). do 2 f_equal.
  destruct (Z.eqb_spec no 1) as [->|Hne].
  - change (inner_of t' 1) with (table1 t') in Hhit. by rewrite Hhit.
  - assert (E : table_hit (store t') (table2 t') 2 (bk_key b) = true).
    { revert Hhit. unfold table_hit, hash_of, inner_of.
      apply Z.eqb_neq in Hne. by rewrite Hne. }
    rewrite E. apply orb_true_r.
Qed.

End MoreProperties.

Section DisplacementStep.


(** X15. A displacement step on a well-formed table that need not split
    never leaves the slot array or the allocated buckets.  Entered with
    counter [loop] it works on table 2 when [loop + 1] is even and on
    table 1 when it is odd, and the step after it on the other table.  If
    the bucket at the key's address is occupied, the step stores the key in
    hand there and goes on with the key the bucket held, the counter one
    higher and the origin unchanged; if it is free, the step stores the
    key, counts it in that table and in the total, and returns true. *)
Theorem chain_steps_alternate_tables
  t key orig_pos orig_key loop orig_table :
  table_inv t ->
  let no := active_table (loop + 1) in
  let address := rightmostnbits (it_depth (inner_of t no)) (hash_of no key) in
  must_split t address key orig_pos orig_key (loop + 1) = false ->
  no = (if Z.even (loop + 1) then 2 else 1) /\
  active_table (loop + 1 + 1) = 3 - no /\
  exists p b,
    it_buckets (inner_of t no) !! Z.to_nat address = Some p /\
    store t !! p = Some (Some b) /\
    (bk_full b = true ->
     forall fuel,
       try_xuck_insert (S fuel) t key orig_pos orig_key loop orig_table =
       try_xuck_insert fuel
         (mkXuckoo (table1 t) (table2 t) (stats t)
            (<[p := Some (mkBucket (bk_id b) (bk_depth b) true key)]>
               (store t)))
         (bk_key b) orig_pos orig_key (loop + 1) orig_table) /\
    (bk_full b = false ->
     forall fuel,
       try_xuck_insert (S fuel) t key orig_pos orig_key loop orig_table =
       Ok (true,
           with_inner t no
             (mkInner (it_buckets (inner_of t no)) (it_size (inner_of t no))
                (it_depth (inner_of t no)) (it_nkeys (inner_of t no) + 1))
             (mkStats (st_nbuckets (stats t)) (st_nkeys (stats t) + 1))
             (<[p := Some (mkBucket (bk_id b) (bk_depth b) true key)]>
                (store t)))).
Proof.
  intros Hinv no address Hms.
  assert (Hpar : forall n, active_table n = (if Z.even n then 2 else 1)).
  { intros n. unfold active_table.
    destruct (Z.eqb_spec (Z.rem n 2) 0) as [E|E].
    - apply Z.rem_divide in E; [|lia]. destruct E as [q ->].
      rewrite Z.even_mul. cbn. by rewrite orb_true_r.
    - destruct (Z.even n) eqn:Ev; [|done].
      apply Z.even_spec in Ev as [q ->]. rewrite Z.mul_comm in E.
      by rewrite Z.rem_mul in E by lia. }
  split; [apply Hpar|]. split.
  { unfold no. rewrite !Hpar.
    replace (loop + 1 + 1) with (Z.succ (loop + 1)) by lia.
    rewrite Z.even_succ, <- Z.negb_even. by destruct (Z.even (loop + 1)). }
  pose proof (inner_of_address t no (hash_of no key) Hinv) as Ha.
  fold address in Ha.
  destruct (inner_other_inv t no Hinv) as ((HT & _) & _).
  destruct (wf_inner_access _ _ address HT Ha) as (p & b & Hg & Hr & Hb).
  pose proof Hg as Hg'. apply get_slot_Ok in Hg' as [_ Hp].
  exists p, b. split; [done|]. split; [done|]. split.
  - intros Hf fuel. cbn [try_xuck_insert]. fold no. fold address.
    rewrite Hms, Hg. cbn [bind]. rewrite Hr. cbn [bind]. rewrite Hf.
    unfold write_bucket. rewrite Hb. cbn [bind].
    unfold set_key. by rewrite <- Hf.
  - intros Hf fuel. cbn [try_xuck_insert]. fold no. fold address.
    rewrite Hms, Hg. cbn [bind]. rewrite Hr. cbn [bind]. rewrite Hf.
    unfold write_bucket. rewrite Hb. cbn [bind]. done.
Qed.

End DisplacementStep.

End Xuckoo.

(** * Worked scenarios *)

(** The scenario of the specification: with [h1 k = k] and [h2 k = k + 1],
    5 goes to table 1, 9 to table 2, and 7 is never found. *)
Example spec_scenario :
  let t := run_inserts hash_id hash_succ 1024 zero_keys 8
             (new_xuckoo_hash_table zero_keys) [5; 9] in
  it_nkeys (table1 t) = 1 /\ it_nkeys (table2 t) = 1 /\
  st_nkeys (stats t) = 2 /\
  xuckoo_hash_table_lookup hash_id hash_succ t 5 = Ok (true, t) /\
  xuckoo_hash_table_lookup hash_id hash_succ t 9 = Ok (true, t) /\
  xuckoo_hash_table_lookup hash_id hash_succ t 7 = Ok (false, t).
Proof. vm_compute. repeat split; reflexivity. Qed.



(** C4 fails on the code.  With [h1 k = 2 k + 1], [h2 k = k + 3] and
    key fields that start out as 0, the inserts of 1, 4 and 3 all return
    true and leave two occupied buckets in each table: 3 and a stale 0 in
    table 1, 1 and 4 in table 2.  The tables store equally many keys, so
    the insert of 6, which is not present, should start in table 1.  The
    key counters stand at 2 and 1, because the split of a free bucket put
    the stale key back without counting it, and the insert starts the
    chain in table 2: it stores 6 in the free bucket of table 2 at its
    address and never touches the bucket of table 1 at its address there. *)
Theorem first_probe_follows_miscounted_keys :
  exists t t',
    insert_all hash_odd hash_plus3 1024 zero_keys 64
      (new_xuckoo_hash_table zero_keys) [1; 4; 3]
      = Ok ([true; true; true], t) /\
    occupied (store t) (table1 t) = 2 /\
    occupied (store t) (table2 t) = 2 /\
    it_nkeys (table1 t) = 2 /\ it_nkeys (table2 t) = 1 /\
    xuckoo_hash_table_lookup hash_odd hash_plus3 t 6 = Ok (false, t) /\
    (forall fuel,
       xuckoo_hash_table_insert hash_odd hash_plus3 1024 zero_keys (S fuel) t 6
       = (let* (_, t'') :=
            try_xuck_insert hash_odd hash_plus3 1024 zero_keys fuel t 6
              (rightmostnbits (it_depth (table2 t)) (hash_plus3 6)) 6 1 2 in
          Ok (true, t''))) /\
    active_table (1 + 1) = 2 /\
    (forall fuel, (2 <= fuel)%nat ->
       xuckoo_hash_table_insert hash_odd hash_plus3 1024 zero_keys fuel t 6
       = Ok (true, t')) /\
    it_buckets (table1 t)
      !! Z.to_nat (rightmostnbits (it_depth (table1 t)) (hash_odd 6))
      = Some 2%nat /\
    it_buckets (table2 t)
      !! Z.to_nat (rightmostnbits (it_depth (table2 t)) (hash_plus3 6))
      = Some 3%nat /\
    store t !! 3%nat = Some (Some (mkBucket 1 2 false 0)) /\
    store t' !! 3%nat = Some (Some (mkBucket 1 2 true 6)) /\
    store t' !! 2%nat = store t !! 2%nat /\
    table1 t' = table1 t /\
    it_nkeys (table2 t') = 2.
Proof.
  eexists _, _. split; [vm_compute; reflexivity|].
  do 5 (split; [reflexivity|]).
  split; [intros fuel; reflexivity|]. split; [reflexivity|].
  split.
  { intros fuel Hf.
    apply (proj1 (fuel_mono hash_odd hash_plus3 1024 zero_keys 2) _ 6 _ fuel);
      [vm_compute; reflexivity|discriminate|exact Hf]. }
  repeat split; reflexivity.
Qed.

(** The same divergence whatever the initial content of the key fields:
    with [h1 k = k] and [h2 k = k / 2], after the eight inserts below, which
    all return true, table 1 has five occupied buckets and table 2 four,
    while both key counters stand at 4; the next insert of a key that is
    not present starts in table 1, the table that stores more keys. *)
Example first_probe_follows_miscounted_keys_any_content (junk : nat -> Z) :
  exists t,
    insert_all hash_id hash_half 1024 junk 64
      (new_xuckoo_hash_table junk) [17; 9; 19; 13; 5; 16; 3; 6]
      = Ok ([true; true; true; true; true; true; true; true], t) /\
    occupied (store t) (table1 t) = 5 /\
    occupied (store t) (table2 t) = 4 /\
    it_nkeys (table1 t) = 4 /\ it_nkeys (table2 t) = 4 /\
    xuckoo_hash_table_lookup hash_id hash_half t 8 = Ok (false, t) /\
    forall fuel,
      xuckoo_hash_table_insert hash_id hash_half 1024 junk (S fuel) t 8
      = (let* (_, t'') :=
           try_xuck_insert hash_id hash_half 1024 junk fuel t 8
             (rightmostnbits (it_depth (table1 t)) (hash_id 8)) 8 0 1 in
         Ok (true, t'')).
Proof.
  eexists. split; [vm_compute; reflexivity|].
  do 5 (split; [vm_compute; reflexivity|]).
  intros fuel. reflexivity.
Qed.

Lemma lookup_finds_key_at_its_addresses_witness :
  let t := (run_inserts hash_id hash_succ 1024 zero_keys 64
       (new_xuckoo_hash_table zero_keys) [5; 9; 7]) in
  table_inv 1024 t /\
  xuckoo_hash_table_lookup hash_id hash_succ t 9 = Ok (true, t) /\
  xuckoo_hash_table_lookup hash_id hash_succ t 6 = Ok (false, t) /\
  (exists p1 b1 p2 b2 found,
     it_buckets (table1 t) !! Z.to_nat (hash_id 9 mod 2 ^ it_depth (table1 t))
       = Some p1 /\
     store t !! p1 = Some (Some b1) /\
     it_buckets (table2 t) !! Z.to_nat (hash_succ 9 mod 2 ^ it_depth (table2 t))
       = Some p2 /\
     store t !! p2 = Some (Some b2) /\
     xuckoo_hash_table_lookup hash_id hash_succ t 9 = Ok (found, t) /\
     (found = true <->
      (bk_full b1 = true /\ bk_key b1 = 9) \/
      (bk_full b2 = true /\ bk_key b2 = 9))).
Proof.
  intros t.
  assert (Hinv : table_inv 1024 t).
  { apply (reachable_inv hash_id hash_succ 1024 zero_keys),
      reachable_run_inserts, reachable_new. }
  split; [exact Hinv|]. split; [vm_compute; reflexivity|].
  split; [vm_compute; reflexivity|].
  exact (lookup_finds_key_at_its_addresses hash_id hash_succ 1024 t 9 Hinv).
Defined.

(** C6, as stated, fails: with a ceiling of 2 a table of size 1 would grow
    to size 2, which does not exceed the ceiling, and [double_table] stops
    at the assertion all the same. *)
Lemma double_table_stops_at_the_ceiling :
  ~ (it_size (mkInner [0%nat] 1 0 0) * 2 > 2) /\
  double_table 2 (mkInner [0%nat] 1 0 0) = Abort.
Proof. split; [cbn; lia|reflexivity]. Qed.

Lemma double_table_doubles_witness :
  Z.of_nat (length (it_buckets (mkInner [0%nat] 1 0 0)))
    = it_size (mkInner [0%nat] 1 0 0) /\
  (double_table 1024 (mkInner [0%nat] 1 0 0) = Abort <-> 1024 <= 1 * 2).
Proof.
  split; [reflexivity|].
  apply (double_table_doubles 1024 (mkInner [0%nat] 1 0 0)). reflexivity.
Defined.

Lemma slot_sharing_reachable_witness :
  reachable hash_id hash_succ 1024 zero_keys
    (run_inserts hash_id hash_succ 1024 zero_keys 64
       (new_xuckoo_hash_table zero_keys) [5; 9; 7]) /\
  slot_sharing
    (store (run_inserts hash_id hash_succ 1024 zero_keys 64
              (new_xuckoo_hash_table zero_keys) [5; 9; 7]))
    (table1 (run_inserts hash_id hash_succ 1024 zero_keys 64
               (new_xuckoo_hash_table zero_keys) [5; 9; 7])).
Proof.
  split.
  - apply reachable_run_inserts, reachable_new.
  - destruct (slot_sharing_reachable hash_id hash_succ 1024 zero_keys
                (run_inserts hash_id hash_succ 1024 zero_keys 64
                   (new_xuckoo_hash_table zero_keys) [5; 9; 7]))
      as [[H1 _] _].
    + apply reachable_run_inserts, reachable_new.
    + exact H1.
Defined.

Lemma insert_terminates_witness :
  reachable hash_id hash_plus2 1024 zero_keys
    (run_inserts hash_id hash_plus2 1024 zero_keys 64
       (new_xuckoo_hash_table zero_keys) [0; 2]) /\
  exists fuel,
    halts 1024
      (xuckoo_hash_table_insert hash_id hash_plus2 1024 zero_keys fuel
         (run_inserts hash_id hash_plus2 1024 zero_keys 64
            (new_xuckoo_hash_table zero_keys) [0; 2]) 4).
Proof.
  split.
  - apply reachable_run_inserts, reachable_new.
  - destruct (insert_terminates hash_id hash_plus2 1024 zero_keys
                (run_inserts hash_id hash_plus2 1024 zero_keys 64
                   (new_xuckoo_hash_table zero_keys) [0; 2]) 4)
      as (fuel & Hh & _).
    + apply reachable_run_inserts, reachable_new.
    + exists fuel. exact Hh.
Defined.

Lemma teardown_frees_each_bucket_once_witness :
  reachable hash_id hash_succ 1024 zero_keys
    (run_inserts hash_id hash_succ 1024 zero_keys 64
       (new_xuckoo_hash_table zero_keys) [5; 9; 7]) /\
  exists m' freed,
    free_xuckoo_hash_table
      (run_inserts hash_id hash_succ 1024 zero_keys 64
         (new_xuckoo_hash_table zero_keys) [5; 9; 7]) = Ok (m', freed) /\
    NoDup freed.
Proof.
  split.
  - apply reachable_run_inserts, reachable_new.
  - destruct (teardown_frees_each_bucket_once hash_id hash_succ 1024 zero_keys
                (run_inserts hash_id hash_succ 1024 zero_keys 64
                   (new_xuckoo_hash_table zero_keys) [5; 9; 7]))
      as (_ & m' & freed & Hf & Hnd & _).
    + apply reachable_run_inserts, reachable_new.
    + exists m', freed. split; [exact Hf|exact Hnd].
Defined.

(** The teardown of the table holding 5, 9 and 7: five buckets, each freed
    once, the ones of table 1 first and from the highest address down. *)
Example teardown_scenario :
  free_xuckoo_hash_table
    (run_inserts hash_id hash_succ 1024 zero_keys 64
       (new_xuckoo_hash_table zero_keys) [5; 9; 7])
  = Ok ([None; None; None; None; None],
        [4%nat; 2%nat; 0%nat; 3%nat; 1%nat]).
Proof. vm_compute. reflexivity. Qed.

(** C3 fails on the code.  With [h1 k = k] and [h2 k = k + 2] the inserts
    of 0, 2 and 4 all return true, and 4 is not found afterwards: while 2
    is being placed, the cycle test fires at an empty bucket of table 2,
    and [split_bucket] puts the stale key 0 of that bucket back into the
    table, over the bucket that held 4.  The content of uninitialised key
    fields plays no part. *)
Theorem inserted_key_is_lost (junk : nat -> Z) :
  exists t,
    insert_all hash_id hash_plus2 1024 junk 64
      (new_xuckoo_hash_table junk) [0; 2; 4] = Ok ([true; true; true], t) /\
    xuckoo_hash_table_lookup hash_id hash_plus2 t 4 = Ok (false, t) /\
    xuckoo_hash_table_lookup hash_id hash_plus2 t 0 = Ok (true, t) /\
    xuckoo_hash_table_lookup hash_id hash_plus2 t 2 = Ok (true, t).
Proof.
  eexists. split; [vm_compute; reflexivity|].
  split_and!; vm_compute; reflexivity.
Qed.

(** The same loss with two linear hash functions modulo a prime: after the
    inserts of 1, 5 and 9 the key 1 is gone. *)
Example inserted_key_is_lost_linear_hash (junk : nat -> Z) :
  exists t,
    insert_all hash_lin1 hash_lin2 1048576 junk 200
      (new_xuckoo_hash_table junk) [1; 5; 9] = Ok ([true; true; true], t) /\
    xuckoo_hash_table_lookup hash_lin1 hash_lin2 t 1 = Ok (false, t).
Proof. eexists. split; vm_compute; reflexivity. Qed.

(** C2 fails on the code.  With [h1 k = k] and [h2 k = k / 2] and the keys
    2, 4 and 6 inserted, the key 12 is not present and its insert returns
    true, but the key count stays at 3: the restarted insert inside the
    call found the key in hand, 6, already in the table (a stale copy that
    an earlier split of an empty bucket had put back) and returned without
    storing anything. *)
Theorem insert_returns_true_without_counting (junk : nat -> Z) :
  exists t t',
    insert_all hash_id hash_half 1024 junk 64
      (new_xuckoo_hash_table junk) [2; 4; 6] = Ok ([true; true; true], t) /\
    xuckoo_hash_table_lookup hash_id hash_half t 12 = Ok (false, t) /\
    xuckoo_hash_table_insert hash_id hash_half 1024 junk 64 t 12
      = Ok (true, t') /\
    st_nkeys (stats t) = 3 /\ st_nkeys (stats t') = 3.
Proof.
  eexists _, _. split; [vm_compute; reflexivity|].
  split; [vm_compute; reflexivity|].
  split; [vm_compute; reflexivity|]. split; reflexivity.
Qed.

(** C8 fails on the code.  With [h1 k = k] and [h2 k = k / 2] the four
    inserts of 2, 4, 6 and 12 all return true, and afterwards the key
    counters of the two inner tables add up to 3, as do the occupied
    buckets. *)
Theorem key_counts_fall_short (junk : nat -> Z) :
  exists t,
    insert_all hash_id hash_half 1024 junk 64
      (new_xuckoo_hash_table junk) [2; 4; 6; 12]
      = Ok ([true; true; true; true], t) /\
    it_nkeys (table1 t) + it_nkeys (table2 t) = 3 /\
    st_nkeys (stats t) = 3 /\
    occupied (store t) (table1 t) + occupied (store t) (table2 t) = 3.
Proof.
  eexists. split; [vm_compute; reflexivity|].
  split_and!; vm_compute; reflexivity.
Qed.

(** * Instances of the further properties

    Each lemma below applies one of the theorems of [MoreProperties] and
    [DisplacementStep] to a small table built with [h1 k = k] and
    [h2 k = k + 1]. *)

Lemma insert_refuses_stored_key_witness :
  reachable hash_id hash_succ 1024 zero_keys
    (run_inserts hash_id hash_succ 1024 zero_keys 8
       (new_xuckoo_hash_table zero_keys) [5]) /\
  stored_in
    (store (run_inserts hash_id hash_succ 1024 zero_keys 8
              (new_xuckoo_hash_table zero_keys) [5]))
    (table1 (run_inserts hash_id hash_succ 1024 zero_keys 8
               (new_xuckoo_hash_table zero_keys) [5])) 5 /\
  xuckoo_hash_table_insert hash_id hash_succ 1024 zero_keys 4
    (run_inserts hash_id hash_succ 1024 zero_keys 8
       (new_xuckoo_hash_table zero_keys) [5]) 5
  = Ok (false,
        run_inserts hash_id hash_succ 1024 zero_keys 8
          (new_xuckoo_hash_table zero_keys) [5]).
Proof.
  assert (Hst : stored_in
    (store (run_inserts hash_id hash_succ 1024 zero_keys 8
              (new_xuckoo_hash_table zero_keys) [5]))
    (table1 (run_inserts hash_id hash_succ 1024 zero_keys 8
               (new_xuckoo_hash_table zero_keys) [5])) 5).
  { exists 0%nat, (mkBucket 0 0 true 5).
    split; [apply list_elem_of_here|]. split; [reflexivity|].
    split; reflexivity. }
  split; [apply reachable_run_inserts, reachable_new|].
  split; [exact Hst|].
  apply (insert_refuses_stored_key hash_id hash_succ 1024 zero_keys
           (run_inserts hash_id hash_succ 1024 zero_keys 8
              (new_xuckoo_hash_table zero_keys) [5]) 5 3).
  - apply reachable_run_inserts, reachable_new.
  - left. exact Hst.
Defined.

Lemma insert_into_free_bucket_witness :
  table_inv 1024 (new_xuckoo_hash_table zero_keys) /\
  xuckoo_hash_table_lookup hash_id hash_succ (new_xuckoo_hash_table zero_keys) 5
    = Ok (false, new_xuckoo_hash_table zero_keys) /\
  store (new_xuckoo_hash_table zero_keys) !! 0%nat
    = Some (Some (mkBucket 0 0 false 0)) /\
  exists t',
    xuckoo_hash_table_insert hash_id hash_succ 1024 zero_keys 2
      (new_xuckoo_hash_table zero_keys) 5 = Ok (true, t') /\
    xuckoo_hash_table_lookup hash_id hash_succ t' 5 = Ok (true, t').
Proof.
  split; [apply table_inv_new|]. split; [reflexivity|]. split; [reflexivity|].
  destruct (insert_into_free_bucket hash_id hash_succ 1024 zero_keys 0
              (new_xuckoo_hash_table zero_keys) 5 0%nat (mkBucket 0 0 false 0)
              (table_inv_new 1024 zero_keys) eq_refl eq_refl eq_refl eq_refl)
    as (t' & Hins & _ & _ & _ & _ & _ & _ & Hlk & _).
  exists t'. split; [exact Hins|exact Hlk].
Defined.

Lemma stored_keys_hash_to_their_bucket_witness :
  reachable hash_id hash_succ 1024 zero_keys
    (run_inserts hash_id hash_succ 1024 zero_keys 64
       (new_xuckoo_hash_table zero_keys) [5; 9; 7]) /\
  forall p b,
    p ∈ it_buckets
          (table1 (run_inserts hash_id hash_succ 1024 zero_keys 64
                     (new_xuckoo_hash_table zero_keys) [5; 9; 7])) ->
    store (run_inserts hash_id hash_succ 1024 zero_keys 64
             (new_xuckoo_hash_table zero_keys) [5; 9; 7]) !! p
      = Some (Some b) ->
    bk_full b = true ->
    hash_id (bk_key b) mod 2 ^ bk_depth b = bk_id b.
Proof.
  split.
  - apply reachable_run_inserts, reachable_new.
  - destruct (stored_keys_hash_to_their_bucket hash_id hash_succ 1024 zero_keys
                (run_inserts hash_id hash_succ 1024 zero_keys 64
                   (new_xuckoo_hash_table zero_keys) [5; 9; 7]))
      as [H1 _].
    + apply reachable_run_inserts, reachable_new.
    + exact H1.
Defined.

Lemma lookup_true_iff_key_stored_witness :
  reachable hash_id hash_succ 1024 zero_keys
    (run_inserts hash_id hash_succ 1024 zero_keys 64
       (new_xuckoo_hash_table zero_keys) [5; 9; 7]) /\
  exists r,
    xuckoo_hash_table_lookup hash_id hash_succ
      (run_inserts hash_id hash_succ 1024 zero_keys 64
         (new_xuckoo_hash_table zero_keys) [5; 9; 7]) 9
    = Ok (r, run_inserts hash_id hash_succ 1024 zero_keys 64
               (new_xuckoo_hash_table zero_keys) [5; 9; 7]).
Proof.
  split.
  - apply reachable_run_inserts, reachable_new.
  - destruct (lookup_true_iff_key_stored hash_id hash_succ 1024 zero_keys
                (run_inserts hash_id hash_succ 1024 zero_keys 64
                   (new_xuckoo_hash_table zero_keys) [5; 9; 7]) 9)
      as (r & Hl & _).
    + apply reachable_run_inserts, reachable_new.
    + exists r. exact Hl.
Defined.

Lemma split_of_occupied_bucket_keeps_keys_witness :
  reachable hash_id hash_succ 1024 zero_keys
    (run_inserts hash_id hash_succ 1024 zero_keys 8
       (new_xuckoo_hash_table zero_keys) [5]) /\
  split_bucket hash_id hash_succ 1024 zero_keys
    (run_inserts hash_id hash_succ 1024 zero_keys 8
       (new_xuckoo_hash_table zero_keys) [5]) 0 1
  = Ok (mkXuckoo (mkInner [0%nat; 2%nat] 2 1 1) (mkInner [1%nat] 1 0 0)
          (mkStats 1 1)
          [Some (mkBucket 0 1 false 5); Some (mkBucket 0 0 false 0);
           Some (mkBucket 1 1 true 5)]) /\
  store (run_inserts hash_id hash_succ 1024 zero_keys 8
           (new_xuckoo_hash_table zero_keys) [5]) !! 0%nat
    = Some (Some (mkBucket 0 0 true 5)) /\
  exists r,
    xuckoo_hash_table_lookup hash_id hash_succ
      (run_inserts hash_id hash_succ 1024 zero_keys 8
         (new_xuckoo_hash_table zero_keys) [5]) 5
    = Ok (r, run_inserts hash_id hash_succ 1024 zero_keys 8
               (new_xuckoo_hash_table zero_keys) [5]) /\
    xuckoo_hash_table_lookup hash_id hash_succ
      (mkXuckoo (mkInner [0%nat; 2%nat] 2 1 1) (mkInner [1%nat] 1 0 0)
         (mkStats 1 1)
         [Some (mkBucket 0 1 false 5); Some (mkBucket 0 0 false 0);
          Some (mkBucket 1 1 true 5)]) 5
    = Ok (r, mkXuckoo (mkInner [0%nat; 2%nat] 2 1 1) (mkInner [1%nat] 1 0 0)
               (mkStats 1 1)
               [Some (mkBucket 0 1 false 5); Some (mkBucket 0 0 false 0);
                Some (mkBucket 1 1 true 5)]).
Proof.
  split; [apply reachable_run_inserts, reachable_new|].
  split; [reflexivity|]. split; [reflexivity|].
  destruct (split_of_occupied_bucket_keeps_keys hash_id hash_succ 1024 zero_keys
              (run_inserts hash_id hash_succ 1024 zero_keys 8
                 (new_xuckoo_hash_table zero_keys) [5]) 0 1
              (mkXuckoo (mkInner [0%nat; 2%nat] 2 1 1) (mkInner [1%nat] 1 0 0)
                 (mkStats 1 1)
                 [Some (mkBucket 0 1 false 5); Some (mkBucket 0 0 false 0);
                  Some (mkBucket 1 1 true 5)])
              0%nat (mkBucket 0 0 true 5)
              (reachable_run_inserts hash_id hash_succ 1024 zero_keys 8 _ [5]
                 (reachable_new hash_id hash_succ 1024 zero_keys))
              eq_refl eq_refl eq_refl eq_refl 5)
    as (_ & _ & r & H1 & H2).
  exists r. split; [exact H1|exact H2].
Defined.

Lemma split_bucket_frame_witness :
  table_inv 1024 (new_xuckoo_hash_table zero_keys) /\
  split_bucket hash_id hash_succ 1024 zero_keys
    (new_xuckoo_hash_table zero_keys) 0 2
  = Ok (mkXuckoo (mkInner [0%nat] 1 0 0) (mkInner [1%nat; 2%nat] 2 1 0)
          (mkStats 1 0)
          [Some (mkBucket 0 0 false 0); Some (mkBucket 0 1 false 0);
           Some (mkBucket 1 1 true 0)]) /\
  other_of
    (mkXuckoo (mkInner [0%nat] 1 0 0) (mkInner [1%nat; 2%nat] 2 1 0)
       (mkStats 1 0)
       [Some (mkBucket 0 0 false 0); Some (mkBucket 0 1 false 0);
        Some (mkBucket 1 1 true 0)]) 2
  = other_of (new_xuckoo_hash_table zero_keys) 2.
Proof.
  split; [apply table_inv_new|]. split; [reflexivity|].
  destruct (split_bucket_frame hash_id hash_succ 1024 zero_keys
              (new_xuckoo_hash_table zero_keys) 0 2
              (mkXuckoo (mkInner [0%nat] 1 0 0) (mkInner [1%nat; 2%nat] 2 1 0)
                 (mkStats 1 0)
                 [Some (mkBucket 0 0 false 0); Some (mkBucket 0 1 false 0);
                  Some (mkBucket 1 1 true 0)])
              (table_inv_new 1024 zero_keys) eq_refl)
    as (H & _).
  exact H.
Defined.

Lemma double_table_keeps_addressing_witness :
  0 <= it_depth (mkInner [0%nat; 1%nat] 2 1 0) /\
  it_size (mkInner [0%nat; 1%nat] 2 1 0)
    = 2 ^ it_depth (mkInner [0%nat; 1%nat] 2 1 0) /\
  Z.of_nat (length (it_buckets (mkInner [0%nat; 1%nat] 2 1 0)))
    = it_size (mkInner [0%nat; 1%nat] 2 1 0) /\
  double_table 1024 (mkInner [0%nat; 1%nat] 2 1 0)
    = Ok (mkInner [0%nat; 1%nat; 0%nat; 1%nat] 4 2 0) /\
  forall x,
    get_slot (it_buckets (mkInner [0%nat; 1%nat; 0%nat; 1%nat] 4 2 0))
      (rightmostnbits (it_depth (mkInner [0%nat; 1%nat; 0%nat; 1%nat] 4 2 0)) x)
    = get_slot (it_buckets (mkInner [0%nat; 1%nat] 2 1 0))
        (rightmostnbits (it_depth (mkInner [0%nat; 1%nat] 2 1 0)) x).
Proof.
  split; [cbn; lia|]. split; [reflexivity|]. split; [reflexivity|].
  split; [reflexivity|].
  apply (double_table_keeps_addressing 1024 (mkInner [0%nat; 1%nat] 2 1 0)
           (mkInner [0%nat; 1%nat; 0%nat; 1%nat] 4 2 0)).
  - cbn. lia.
  - reflexivity.
  - reflexivity.
  - reflexivity.
Defined.

Lemma counters_agree_witness :
  reachable hash_id hash_succ 1024 zero_keys
    (run_inserts hash_id hash_succ 1024 zero_keys 64
       (new_xuckoo_hash_table zero_keys) [5; 9; 7]) /\
  st_nkeys (stats (run_inserts hash_id hash_succ 1024 zero_keys 64
                     (new_xuckoo_hash_table zero_keys) [5; 9; 7]))
  = it_nkeys (table1 (run_inserts hash_id hash_succ 1024 zero_keys 64
                        (new_xuckoo_hash_table zero_keys) [5; 9; 7]))
    + it_nkeys (table2 (run_inserts hash_id hash_succ 1024 zero_keys 64
                          (new_xuckoo_hash_table zero_keys) [5; 9; 7])).
Proof.
  split.
  - apply reachable_run_inserts, reachable_new.
  - destruct (counters_agree hash_id hash_succ 1024 zero_keys
                (run_inserts hash_id hash_succ 1024 zero_keys 64
                   (new_xuckoo_hash_table zero_keys) [5; 9; 7]))
      as (H & _).
    + apply reachable_run_inserts, reachable_new.
    + exact H.
Defined.

Lemma tables_well_formed_witness :
  reachable hash_id hash_succ 1024 zero_keys
    (run_inserts hash_id hash_succ 1024 zero_keys 64
       (new_xuckoo_hash_table zero_keys) [5; 9; 7]) /\
  forall p,
    p ∈ it_buckets
          (table1 (run_inserts hash_id hash_succ 1024 zero_keys 64
                     (new_xuckoo_hash_table zero_keys) [5; 9; 7])) ->
    p ∉ it_buckets
          (table2 (run_inserts hash_id hash_succ 1024 zero_keys 64
                     (new_xuckoo_hash_table zero_keys) [5; 9; 7])).
Proof.
  split.
  - apply reachable_run_inserts, reachable_new.
  - destruct (tables_well_formed hash_id hash_succ 1024 zero_keys
                (run_inserts hash_id hash_succ 1024 zero_keys 64
                   (new_xuckoo_hash_table zero_keys) [5; 9; 7]))
      as [_ H].
    + apply reachable_run_inserts, reachable_new.
    + exact H.
Defined.

Lemma insert_only_grows_witness :
  reachable hash_id hash_succ 1024 zero_keys
    (run_inserts hash_id hash_succ 1024 zero_keys 64
       (new_xuckoo_hash_table zero_keys) [5; 9]) /\
  xuckoo_hash_table_insert hash_id hash_succ 1024 zero_keys 64
    (run_inserts hash_id hash_succ 1024 zero_keys 64
       (new_xuckoo_hash_table zero_keys) [5; 9]) 7
  = Ok (true,
        run_inserts hash_id hash_succ 1024 zero_keys 64
          (new_xuckoo_hash_table zero_keys) [5; 9; 7]) /\
  grows
    (run_inserts hash_id hash_succ 1024 zero_keys 64
       (new_xuckoo_hash_table zero_keys) [5; 9])
    (run_inserts hash_id hash_succ 1024 zero_keys 64
       (new_xuckoo_hash_table zero_keys) [5; 9; 7]).
Proof.
  split; [apply reachable_run_inserts, reachable_new|].
  split; [vm_compute; reflexivity|].
  destruct (insert_only_grows hash_id hash_succ 1024 zero_keys
              (run_inserts hash_id hash_succ 1024 zero_keys 64
                 (new_xuckoo_hash_table zero_keys) [5; 9]) 7 64 true
              (run_inserts hash_id hash_succ 1024 zero_keys 64
                 (new_xuckoo_hash_table zero_keys) [5; 9; 7]))
    as (H & _).
  - apply reachable_run_inserts, reachable_new.
  - vm_compute. reflexivity.
  - exact H.
Defined.

Lemma insert_without_split_is_correct_witness :
  reachable hash_id hash_succ 1024 zero_keys
    (run_inserts hash_id hash_succ 1024 zero_keys 8
       (new_xuckoo_hash_table zero_keys) [5]) /\
  xuckoo_hash_table_insert hash_id hash_succ 1024 zero_keys 8
    (run_inserts hash_id hash_succ 1024 zero_keys 8
       (new_xuckoo_hash_table zero_keys) [5]) 9
  = Ok (true,
        run_inserts hash_id hash_succ 1024 zero_keys 8
          (new_xuckoo_hash_table zero_keys) [5; 9]) /\
  st_nbuckets (stats (run_inserts hash_id hash_succ 1024 zero_keys 8
                        (new_xuckoo_hash_table zero_keys) [5; 9]))
  = st_nbuckets (stats (run_inserts hash_id hash_succ 1024 zero_keys 8
                          (new_xuckoo_hash_table zero_keys) [5])) /\
  st_nkeys (stats (run_inserts hash_id hash_succ 1024 zero_keys 8
                     (new_xuckoo_hash_table zero_keys) [5; 9]))
  = st_nkeys (stats (run_inserts hash_id hash_succ 1024 zero_keys 8
                       (new_xuckoo_hash_table zero_keys) [5])) + 1.
Proof.
  split; [apply reachable_run_inserts, reachable_new|].
  split; [vm_compute; reflexivity|]. split; [reflexivity|].
  destruct (insert_without_split_is_correct hash_id hash_succ 1024 zero_keys
              (run_inserts hash_id hash_succ 1024 zero_keys 8
                 (new_xuckoo_hash_table zero_keys) [5]) 9 8
              (run_inserts hash_id hash_succ 1024 zero_keys 8
                 (new_xuckoo_hash_table zero_keys) [5; 9]))
    as (_ & H & _).
  - apply reachable_run_inserts, reachable_new.
  - vm_compute. reflexivity.
  - reflexivity.
  - exact H.
Defined.

Lemma reinsert_key_stores_key_witness :
  wf_inner (store (new_xuckoo_hash_table zero_keys))
           (table2 (new_xuckoo_hash_table zero_keys)) /\
  exists p b,
    store (new_xuckoo_hash_table zero_keys) !! p = Some (Some b) /\
    reinsert_key hash_id hash_succ (store (new_xuckoo_hash_table zero_keys))
      (table2 (new_xuckoo_hash_table zero_keys)) 5 2
    = Ok (<[p := Some (mkBucket (bk_id b) (bk_depth b) true 5)]>
            (store (new_xuckoo_hash_table zero_keys))).
Proof.
  destruct (table_inv_new 1024 zero_keys) as ((_ & H2 & _) & _).
  split; [exact H2|].
  destruct (reinsert_key_stores_key hash_id hash_succ
              (store (new_xuckoo_hash_table zero_keys))
              (table2 (new_xuckoo_hash_table zero_keys)) 5 2 H2)
    as (p & b & _ & Hb & Hre & _).
  exists p, b. split; [exact Hb|exact Hre].
Defined.

Lemma split_makes_key_field_found_witness :
  table_inv 1024 (new_xuckoo_hash_table zero_keys) /\
  split_bucket hash_id hash_succ 1024 zero_keys
    (new_xuckoo_hash_table zero_keys) 0 2
  = Ok (mkXuckoo (mkInner [0%nat] 1 0 0) (mkInner [1%nat; 2%nat] 2 1 0)
          (mkStats 1 0)
          [Some (mkBucket 0 0 false 0); Some (mkBucket 0 1 false 0);
           Some (mkBucket 1 1 true 0)]) /\
  store (new_xuckoo_hash_table zero_keys) !! 1%nat
    = Some (Some (mkBucket 0 0 false 0)) /\
  xuckoo_hash_table_lookup hash_id hash_succ
    (mkXuckoo (mkInner [0%nat] 1 0 0) (mkInner [1%nat; 2%nat] 2 1 0)
       (mkStats 1 0)
       [Some (mkBucket 0 0 false 0); Some (mkBucket 0 1 false 0);
        Some (mkBucket 1 1 true 0)]) 0
  = Ok (true,
        mkXuckoo (mkInner [0%nat] 1 0 0) (mkInner [1%nat; 2%nat] 2 1 0)
          (mkStats 1 0)
          [Some (mkBucket 0 0 false 0); Some (mkBucket 0 1 false 0);
           Some (mkBucket 1 1 true 0)]).
Proof.
  split; [apply table_inv_new|]. split; [reflexivity|]. split; [reflexivity|].
  exact (split_makes_key_field_found hash_id hash_succ 1024 zero_keys
           (new_xuckoo_hash_table zero_keys) 0 2
           (mkXuckoo (mkInner [0%nat] 1 0 0) (mkInner [1%nat; 2%nat] 2 1 0)
              (mkStats 1 0)
              [Some (mkBucket 0 0 false 0); Some (mkBucket 0 1 false 0);
               Some (mkBucket 1 1 true 0)])
           1%nat (mkBucket 0 0 false 0)
           (table_inv_new 1024 zero_keys) eq_refl eq_refl eq_refl).
Defined.

Lemma chain_steps_alternate_tables_witness :
  let t := run_inserts hash_id hash_succ 1024 zero_keys 8
             (new_xuckoo_hash_table zero_keys) [5; 9] in
  table_inv 1024 t /\
  must_split t 0 7 0 7 (0 + 1) = false /\
  try_xuck_insert hash_id hash_succ 1024 zero_keys 64 t 7 0 7 0 1
  = Ok (true,
        mkXuckoo (mkInner [0%nat; 2%nat; 0%nat; 4%nat] 4 2 2)
          (mkInner [1%nat; 3%nat] 2 1 1) (mkStats 3 3)
          [Some (mkBucket 0 1 false 7); Some (mkBucket 0 1 true 9);
           Some (mkBucket 1 2 true 5); Some (mkBucket 1 1 false 0);
           Some (mkBucket 3 2 true 7)]) /\
  active_table (0 + 1) = 1 /\ active_table (0 + 1 + 1) = 2 /\
  forall fuel,
    try_xuck_insert hash_id hash_succ 1024 zero_keys (S fuel) t 7 0 7 0 1 =
    try_xuck_insert hash_id hash_succ 1024 zero_keys fuel
      (mkXuckoo (table1 t) (table2 t) (stats t)
         (<[0%nat := Some (mkBucket 0 0 true 7)]> (store t)))
      5 0 7 (0 + 1) 1.
Proof.
  intros t.
  assert (Hinv : table_inv 1024 t).
  { apply (reachable_inv hash_id hash_succ 1024 zero_keys),
      reachable_run_inserts, reachable_new. }
  split; [exact Hinv|]. split; [reflexivity|].
  split; [vm_compute; reflexivity|].
  destruct (chain_steps_alternate_tables hash_id hash_succ 1024 zero_keys
              t 7 0 7 0 1 Hinv eq_refl)
    as (H1 & H2 & p & b & Hp & Hb & Hswap & _).
  split; [exact H1|]. split; [exact H2|].
  vm_compute in Hp. injection Hp as <-.
  vm_compute in Hb. injection Hb as <-.
  exact (Hswap eq_refl).
Defined.
